(** * Button maps and controller transformation of peripheral.joystick

    A shallow embedding of

    - [CButtonMap] (src/storage/ButtonMap.cpp): [GetButtonMap],
      [MapFeatures], [SaveButtonMap], [RevertButtonMap], [ResetButtonMap],
      [Refresh], [Sanitize];
    - [CControllerTransformer] (src/buttonmapper/ControllerTransformer.cpp):
      [OnAdd], [AddControllerMap], [TransformFeatures].

    Containers are modelled as follows.  A [std::vector] is a [list].
    The [std::map]s with string keys ([ButtonMap], [ControllerMap]) are
    [gmap]s; [operator[]] on a missing key inserts a default value, which
    is written out wherever the source uses it, and the one loop over a
    [ButtonMap] visits its entries in ascending order of the keys.  The
    [std::set] of observed devices is a [gset].  The two ordered
    containers whose order comes from [FeatureTranslation] ([FeatureMap],
    [FeatureMaps]) are lists kept in iteration order. *)

From Stdlib Require Import String Ascii ZArith NArith List Sorted Permutation.
From stdpp Require Import gmap strings list fin_maps.

Open Scope string_scope.
Open Scope list_scope.

(** ** The add-on data types

    [ADDON::DriverPrimitive] and [ADDON::JoystickFeature] are declared in
    kodi_peripheral_utils.hpp, which is not part of the sources. *)

Module DriverPrimitive.

(** Modelled from the spec: the type tag of a primitive (button,
    hat direction, semi-axis, key, unknown); the declaration of
    JOYSTICK_DRIVER_PRIMITIVE_TYPE is missing. *)
Inductive JOYSTICK_DRIVER_PRIMITIVE_TYPE :=
| JOYSTICK_DRIVER_PRIMITIVE_TYPE_UNKNOWN
| JOYSTICK_DRIVER_PRIMITIVE_TYPE_BUTTON
| JOYSTICK_DRIVER_PRIMITIVE_TYPE_HAT_DIRECTION
| JOYSTICK_DRIVER_PRIMITIVE_TYPE_SEMIAXIS
| JOYSTICK_DRIVER_PRIMITIVE_TYPE_KEY.

(** Modelled from the spec: a primitive is its type tag and its
    identifying fields, a driver index and a polarity (hat or semi-axis
    direction); the class declaration is missing. *)
Record t := Build {
  Type_ : JOYSTICK_DRIVER_PRIMITIVE_TYPE;
  DriverIndex : N;
  Polarity : Z
}.

#[global] Instance type_eq_dec : EqDecision JOYSTICK_DRIVER_PRIMITIVE_TYPE.
Proof. solve_decision. Defined.

#[global] Instance eq_dec : EqDecision t.
Proof. solve_decision. Defined.

(** Modelled from the spec: [operator==]; two primitives are equal iff
    the type and all identifying fields match exactly. *)
Definition eqb (lhs rhs : t) : bool := bool_decide (lhs = rhs).

(** Modelled from the spec: the default constructor [DriverPrimitive()]
    gives the null primitive, of unknown type. *)
Definition default : t :=
  {| Type_ := JOYSTICK_DRIVER_PRIMITIVE_TYPE_UNKNOWN;
     DriverIndex := 0;
     Polarity := 0 |}.

(** [primitive.Type() == JOYSTICK_DRIVER_PRIMITIVE_TYPE_UNKNOWN] *)
Definition is_unknown (primitive : t) : bool :=
  bool_decide (Type_ primitive = JOYSTICK_DRIVER_PRIMITIVE_TYPE_UNKNOWN).

End DriverPrimitive.

Module JoystickFeature.

(** The feature types named by [AddControllerMap]. *)
Inductive JOYSTICK_FEATURE_TYPE :=
| JOYSTICK_FEATURE_TYPE_UNKNOWN
| JOYSTICK_FEATURE_TYPE_SCALAR
| JOYSTICK_FEATURE_TYPE_ANALOG_STICK
| JOYSTICK_FEATURE_TYPE_ACCELEROMETER
| JOYSTICK_FEATURE_TYPE_MOTOR.

#[global] Instance type_eq_dec : EqDecision JOYSTICK_FEATURE_TYPE.
Proof. solve_decision. Defined.

(** Modelled from the spec: a feature has a name, a feature type and an
    ordered list of primitives whose slots are fixed by the type; the
    class declaration is missing. *)
Record t := Build {
  Name : string;
  Type_ : JOYSTICK_FEATURE_TYPE;
  Primitives : list DriverPrimitive.t
}.

#[global] Instance eq_dec : EqDecision t.
Proof. solve_decision. Defined.

Definition SetName (feature : t) (name : string) : t :=
  {| Name := name; Type_ := Type_ feature; Primitives := Primitives feature |}.

(** Assignment through the reference returned by [Primitives()]. *)
Definition SetPrimitives (feature : t) (primitives : list DriverPrimitive.t) : t :=
  {| Name := Name feature; Type_ := Type_ feature; Primitives := primitives |}.

(** Modelled from the spec: the slot indices of
    JOYSTICK_FEATURE_PRIMITIVE (one slot for a scalar or a motor, four
    directions for an analog stick, three axes for an accelerometer);
    the enumeration is missing. *)
Definition JOYSTICK_SCALAR_PRIMITIVE : nat := 0.
Definition JOYSTICK_ANALOG_STICK_UP : nat := 0.
Definition JOYSTICK_ANALOG_STICK_DOWN : nat := 1.
Definition JOYSTICK_ANALOG_STICK_RIGHT : nat := 2.
Definition JOYSTICK_ANALOG_STICK_LEFT : nat := 3.
Definition JOYSTICK_ACCELEROMETER_POSITIVE_X : nat := 0.
Definition JOYSTICK_ACCELEROMETER_POSITIVE_Y : nat := 1.
Definition JOYSTICK_ACCELEROMETER_POSITIVE_Z : nat := 2.

(** [feature.Primitive(which)]; a slot the list does not have reads as
    the null primitive. *)
Definition Primitive (feature : t) (which : nat) : DriverPrimitive.t :=
  nth which (Primitives feature) DriverPrimitive.default.

End JoystickFeature.

Import DriverPrimitive(JOYSTICK_DRIVER_PRIMITIVE_TYPE(..)).
Import JoystickFeature(JOYSTICK_FEATURE_TYPE(..)).

Abbreviation FeatureVector := (list JoystickFeature.t).
Abbreviation ButtonMap := (gmap string (list JoystickFeature.t)).

(** ** CButtonMap::Sanitize *)

(** The two searches that set [bFound] for [primitive]: first the
    primitives of the features before [iFeature], which the loop has
    already rewritten ([prior]), then the slots before [iPrimitive] of the
    feature itself, rewritten as well ([done]). *)
Definition found_before (prior : FeatureVector) (done : list DriverPrimitive.t)
    (primitive : DriverPrimitive.t) : bool :=
  existsb (fun existing =>
             existsb (fun p => DriverPrimitive.eqb p primitive)
                     (JoystickFeature.Primitives existing)) prior
  || existsb (fun p => DriverPrimitive.eqb p primitive) done.

(** The inner loop over [iPrimitive]: [done] are the slots already
    visited, [todo] the slots from [iPrimitive] on. *)
Fixpoint sanitize_primitives (prior : FeatureVector)
    (done todo : list DriverPrimitive.t) : list DriverPrimitive.t :=
  match todo with
  | [] => done
  | primitive :: rest =>
      let primitive' :=
        if DriverPrimitive.is_unknown primitive then primitive
        else if found_before prior done primitive then DriverPrimitive.default
        else primitive in
      sanitize_primitives prior (done ++ [primitive']) rest
  end.

(** The outer loop over [iFeature]: [prior] are the features already
    visited, [todo] the features from [iFeature] on. *)
Fixpoint sanitize_features (prior todo : FeatureVector) : FeatureVector :=
  match todo with
  | [] => prior
  | feature :: rest =>
      let primitives :=
        sanitize_primitives prior [] (JoystickFeature.Primitives feature) in
      sanitize_features (prior ++ [JoystickFeature.SetPrimitives feature primitives]) rest
  end.

(** [bIsValid] of the erase pass: some primitive is not unknown. *)
Definition is_valid (feature : JoystickFeature.t) : bool :=
  existsb (fun primitive => negb (DriverPrimitive.is_unknown primitive))
          (JoystickFeature.Primitives feature).

Definition Sanitize (controllerId : string) (features : FeatureVector) : FeatureVector :=
  List.filter is_valid (sanitize_features [] features).

(** ** CButtonMap *)

(** Sorting by a string key, with [operator<] of [std::string] on the
    keys: each element is inserted before the first one with a greater
    key. *)
Fixpoint insert_by {A} (key : A -> string) (x : A) (sorted : list A) : list A :=
  match sorted with
  | [] => [x]
  | rhs :: rest =>
      if String.ltb (key x) (key rhs) then x :: sorted
      else rhs :: insert_by key x rest
  end.

Definition sort_by {A} (key : A -> string) (l : list A) : list A :=
  foldr (insert_by key) [] l.

(** [std::sort] with the comparator [lhs.Name() < rhs.Name()].  The
    standard leaves the order of features with equal names open; the model
    is an insertion sort. *)
Definition sort_by_name (features : FeatureVector) : FeatureVector :=
  sort_by JoystickFeature.Name features.

(** The members of [CButtonMap] that the operations below read or write;
    [m_strResourcePath] and [m_device] never change. *)
Record CButtonMap := {
  m_buttonMap : ButtonMap;
  m_originalButtonMap : ButtonMap;
  m_timestamp : Z;
  m_bModified : bool
}.

(** [std::map::empty()] *)
Definition empty (buttonMap : ButtonMap) : bool := bool_decide (buttonMap = ∅).

(** The erase/remove_if loop: for each new feature, drop the features of
    the same name. *)
Definition remove_same_name (features myFeatures : FeatureVector) : FeatureVector :=
  fold_left
    (fun myFeatures newFeature =>
       List.filter (fun feature =>
                      negb (String.eqb (JoystickFeature.Name feature)
                                       (JoystickFeature.Name newFeature)))
                   myFeatures)
    features myFeatures.

(** The loop that updates the axis configurations only calls into
    [m_device]; it leaves the members below alone and is not part of the
    model. *)
Definition MapFeatures (controllerId : string) (features : FeatureVector)
    (self : CButtonMap) : CButtonMap :=
  let originalButtonMap :=
    if empty (m_originalButtonMap self) then m_buttonMap self
    else m_originalButtonMap self in
  let myFeatures := default [] (m_buttonMap self !! controllerId) in
  let myFeatures := remove_same_name features myFeatures in
  let myFeatures := features ++ myFeatures in
  let myFeatures := Sanitize controllerId myFeatures in
  let myFeatures := sort_by_name myFeatures in
  {| m_buttonMap := <[controllerId := myFeatures]> (m_buttonMap self);
     m_originalButtonMap := originalButtonMap;
     m_timestamp := m_timestamp self;
     m_bModified := true |}.

(** [Save()] writes to the backing resource and [GetTimeMs()] reads the
    clock; their results are the arguments [saved] and [now]. *)
Definition SaveButtonMap (saved : bool) (now : Z) (self : CButtonMap) : CButtonMap * bool :=
  if saved then
    ({| m_buttonMap := m_buttonMap self;
        m_originalButtonMap := ∅;
        m_timestamp := now;
        m_bModified := false |}, true)
  else (self, false).

Definition RevertButtonMap (self : CButtonMap) : CButtonMap * bool :=
  if negb (empty (m_originalButtonMap self)) then
    ({| m_buttonMap := m_originalButtonMap self;
        m_originalButtonMap := m_originalButtonMap self;
        m_timestamp := m_timestamp self;
        m_bModified := m_bModified self |}, true)
  else (self, false).

Definition ResetButtonMap (saved : bool) (now : Z) (controllerId : string)
    (self : CButtonMap) : CButtonMap * bool :=
  let features := default [] (m_buttonMap self !! controllerId) in
  let with_features (features : FeatureVector) :=
    {| m_buttonMap := <[controllerId := features]> (m_buttonMap self);
       m_originalButtonMap := m_originalButtonMap self;
       m_timestamp := m_timestamp self;
       m_bModified := m_bModified self |} in
  if negb (bool_decide (features = [])) then
    SaveButtonMap saved now (with_features [])
  else (with_features features, false).

(** ** CControllerTransformer *)

Record FeatureTranslation := {
  fromFeature : string;
  toFeature : string
}.

(** [operator<] of [FeatureTranslation].  It orders the [std::set] of
    translations and, through the lexicographic comparison of sets, the
    [std::map] of observation counts.  It is declared in a header that is
    not part of the sources, so the operations below take it as a
    parameter. *)
Class TranslationLess := translation_lt : FeatureTranslation -> FeatureTranslation -> bool.

(** [FeatureMap] is a [std::set<FeatureTranslation>], [FeatureMaps] a
    [std::map<FeatureMap, unsigned int>]; both are lists in iteration
    order.  [ControllerMap] is only indexed, by the pair of controller
    ids of a [ControllerTranslation].  A [DevicePtr] is compared by the
    address it holds. *)
Abbreviation FeatureMap := (list FeatureTranslation).
Abbreviation FeatureMaps := (list (list FeatureTranslation * N)).
Abbreviation ControllerTranslation := (string * string)%type.
Abbreviation ControllerMap := (gmap (string * string) (list (list FeatureTranslation * N))).
Abbreviation DevicePtr := positive.

Record CControllerTransformer := {
  m_controllerMap : ControllerMap;
  m_observedDevices : gset positive
}.

(** The lambda of [std::find_if] in [AddControllerMap]. *)
Definition primitives_match (fromFeature feature : JoystickFeature.t) : bool :=
  let same (which : nat) :=
    DriverPrimitive.eqb (JoystickFeature.Primitive fromFeature which)
                        (JoystickFeature.Primitive feature which) in
  if bool_decide (JoystickFeature.Type_ fromFeature = JoystickFeature.Type_ feature) then
    match JoystickFeature.Type_ feature with
    | JOYSTICK_FEATURE_TYPE_SCALAR
    | JOYSTICK_FEATURE_TYPE_MOTOR =>
        same JoystickFeature.JOYSTICK_SCALAR_PRIMITIVE
    | JOYSTICK_FEATURE_TYPE_ANALOG_STICK =>
        same JoystickFeature.JOYSTICK_ANALOG_STICK_UP &&
        same JoystickFeature.JOYSTICK_ANALOG_STICK_DOWN &&
        same JoystickFeature.JOYSTICK_ANALOG_STICK_RIGHT &&
        same JoystickFeature.JOYSTICK_ANALOG_STICK_LEFT
    | JOYSTICK_FEATURE_TYPE_ACCELEROMETER =>
        same JoystickFeature.JOYSTICK_ACCELEROMETER_POSITIVE_X &&
        same JoystickFeature.JOYSTICK_ACCELEROMETER_POSITIVE_Y &&
        same JoystickFeature.JOYSTICK_ACCELEROMETER_POSITIVE_Z
    | _ => false
    end
  else false.

(** [++it->second] on an [unsigned int]. *)
Definition increment (count : N) : N := ((count + 1) mod 2 ^ 32)%N.

(** The loop of [TransformFeatures] that looks for the most frequent
    translation set: the state is [(maxCount, bestFeatureMap)]. *)
Definition best_step (best : N * option (list FeatureTranslation))
    (featureMap : list FeatureTranslation * N) : N * option (list FeatureTranslation) :=
  let count := featureMap.2 in
  if (best.1 <? count)%N then (count, Some featureMap.1) else best.

Definition best_feature_map (featureMaps : FeatureMaps) : option (list FeatureTranslation) :=
  (fold_left best_step featureMaps (0%N, None)).2.

(** The body of the loop over [*bestFeatureMap]: the features appended to
    [transformedFeatures] for one translation. *)
Definition transform_pair (bSwap : bool) (features : FeatureVector)
    (featurePair : FeatureTranslation) : FeatureVector :=
  let fromFeature' := if bSwap then toFeature featurePair else fromFeature featurePair in
  let toFeature' := if bSwap then fromFeature featurePair else toFeature featurePair in
  match List.find (fun feature => String.eqb (JoystickFeature.Name feature) fromFeature') features with
  | Some itFrom => [JoystickFeature.SetName itFrom toFeature']
  | None => []
  end.

(** The sequence from [buttonMap.begin()] to [buttonMap.end()]: the
    entries in ascending order of their keys. *)
Definition entries (buttonMap : ButtonMap) : list (string * FeatureVector) :=
  sort_by fst (map_to_list buttonMap).

(** The entries visited by the inner loop of [OnAdd]: from the first one,
    as long as [itFrom->first < itTo->first]. *)
Fixpoint from_entries (all : list (string * FeatureVector)) (to : string)
    : list (string * FeatureVector) :=
  match all with
  | [] => []
  | itFrom :: rest =>
      if String.ltb itFrom.1 to then itFrom :: from_entries rest to else []
  end.

Section Transformer.

Context `{TranslationLess}.

(** [features.insert(featureEntry)] on the [std::set]. *)
Fixpoint set_insert (featureEntry : FeatureTranslation) (features : FeatureMap) : FeatureMap :=
  match features with
  | [] => [featureEntry]
  | entry :: rest =>
      if translation_lt featureEntry entry then featureEntry :: features
      else if translation_lt entry featureEntry then entry :: set_insert featureEntry rest
      else features
  end.

(** [operator<] of [std::set]: [std::lexicographical_compare]. *)
Fixpoint FeatureMap_lt (lhs rhs : FeatureMap) : bool :=
  match lhs, rhs with
  | _, [] => false
  | [], _ :: _ => true
  | l :: lhs', r :: rhs' =>
      if translation_lt l r then true
      else if translation_lt r l then false
      else FeatureMap_lt lhs' rhs'
  end.

(** [featureMaps.find(features)]: the first key that is not less than
    [features] is the one found, unless it is greater. *)
Fixpoint map_find (features : FeatureMap) (featureMaps : FeatureMaps) : option N :=
  match featureMaps with
  | [] => None
  | (key, count) :: rest =>
      if FeatureMap_lt key features then map_find features rest
      else if FeatureMap_lt features key then None
      else Some count
  end.

(** [++it->second] for the iterator returned by [find]. *)
Fixpoint map_increment (features : FeatureMap) (featureMaps : FeatureMaps) : FeatureMaps :=
  match featureMaps with
  | [] => []
  | (key, count) :: rest =>
      if FeatureMap_lt key features then (key, count) :: map_increment features rest
      else if FeatureMap_lt features key then featureMaps
      else (key, increment count) :: rest
  end.

(** [featureMaps.insert(std::make_pair(features, count))]. *)
Fixpoint map_insert (features : FeatureMap) (count : N) (featureMaps : FeatureMaps) : FeatureMaps :=
  match featureMaps with
  | [] => [(features, count)]
  | (key, count') :: rest =>
      if FeatureMap_lt features key then (features, count) :: featureMaps
      else if FeatureMap_lt key features then (key, count') :: map_insert features count rest
      else featureMaps
  end.

(** The end of [AddControllerMap]: the count of [features] in the bucket
    is incremented if [find] has it, and [features] is inserted with count
    1 otherwise. *)
Definition count_features (features : FeatureMap) (featureMaps : FeatureMaps) : FeatureMaps :=
  match map_find features featureMaps with
  | Some _ => map_increment features featureMaps
  | None => map_insert features 1 featureMaps
  end.

(** The loop of [AddControllerMap] over [featuresFrom]. *)
Definition translations (featuresFrom featuresTo : FeatureVector) : FeatureMap :=
  fold_left
    (fun features fromFeature =>
       match List.find (primitives_match fromFeature) featuresTo with
       | Some itToFeature =>
           set_insert {| fromFeature := JoystickFeature.Name fromFeature;
                         toFeature := JoystickFeature.Name itToFeature |} features
       | None => features
       end)
    featuresFrom [].

(** [ASSERT(controllerFrom < controllerTo)] holds at the only call, in
    [OnAdd], and is not part of the model. *)
Definition AddControllerMap (controllerFrom : string) (featuresFrom : FeatureVector)
    (controllerTo : string) (featuresTo : FeatureVector)
    (self : CControllerTransformer) : CControllerTransformer * bool :=
  let key : ControllerTranslation := (controllerFrom, controllerTo) in
  let features := translations featuresFrom featuresTo in
  match features with
  | _ :: _ =>
      let featureMaps := default [] (m_controllerMap self !! key) in
      let featureMaps := count_features features featureMaps in
      ({| m_controllerMap := <[key := featureMaps]> (m_controllerMap self);
          m_observedDevices := m_observedDevices self |}, true)
  | [] => (self, false)
  end.

Definition OnAdd (driverInfo : DevicePtr) (buttonMap : ButtonMap)
    (self : CControllerTransformer) : CControllerTransformer :=
  if bool_decide (200 < size (m_observedDevices self))%nat then self
  else if bool_decide (driverInfo ∈ m_observedDevices self) then self
  else
    let self :=
      {| m_controllerMap := m_controllerMap self;
         m_observedDevices := {[driverInfo]} ∪ m_observedDevices self |} in
    fold_left
      (fun self itTo =>
         fold_left
           (fun self itFrom =>
              (AddControllerMap itFrom.1 itFrom.2 itTo.1 itTo.2 self).1)
           (from_entries (entries buttonMap) itTo.1) self)
      (entries buttonMap) self.

End Transformer.

(** [bSwap = (fromController >= toController)] and the [needle] that
    [TransformFeatures] looks up. *)
Definition bSwap (fromController toController : string) : bool :=
  negb (String.ltb fromController toController).

Definition needle (fromController toController : string) : ControllerTranslation :=
  (if bSwap fromController toController then toController else fromController,
   if bSwap fromController toController then fromController else toController).

(** [TransformFeatures] appends to its last argument; the model returns
    the transformer, whose [m_controllerMap] is indexed with [operator[]],
    and the extended [transformedFeatures].  The argument [driverInfo] is
    not used by the source. *)
Definition TransformFeatures (fromController toController : string)
    (features transformedFeatures : FeatureVector)
    (self : CControllerTransformer) : CControllerTransformer * FeatureVector :=
  let featureMaps :=
    default [] (m_controllerMap self !! needle fromController toController) in
  let self :=
    {| m_controllerMap :=
         <[needle fromController toController := featureMaps]> (m_controllerMap self);
       m_observedDevices := m_observedDevices self |} in
  match best_feature_map featureMaps with
  | Some bestFeatureMap =>
      (self,
       transformedFeatures
       ++ flat_map (transform_pair (bSwap fromController toController) features)
                   bestFeatureMap)
  | None => (self, transformedFeatures)
  end.

(** The state built by the constructors. *)
Definition new_CControllerTransformer : CControllerTransformer :=
  {| m_controllerMap := ∅; m_observedDevices := ∅ |}.

Definition new_CButtonMap : CButtonMap :=
  {| m_buttonMap := ∅; m_originalButtonMap := ∅; m_timestamp := -1; m_bModified := false |}.

(** ** Notions used by the statements *)

(** The transformers that the public operations can produce. *)
Inductive reachable `{TranslationLess} : CControllerTransformer -> Prop :=
| reachable_new : reachable new_CControllerTransformer
| reachable_OnAdd driverInfo buttonMap self :
    reachable self -> reachable (OnAdd driverInfo buttonMap self)
| reachable_TransformFeatures fromController toController features transformedFeatures self :
    reachable self ->
    reachable (TransformFeatures fromController toController features
                                 transformedFeatures self).1.

(** A run of [OnAdd], one call for each observed device. *)
Definition observe_all `{TranslationLess} (observations : list (DevicePtr * ButtonMap))
    (self : CControllerTransformer) : CControllerTransformer :=
  fold_left (fun self observation => OnAdd observation.1 observation.2 self)
            observations self.

(** Ascending order of the keys: no key is greater than a later one. *)
Definition key_le {A} (key : A -> string) (lhs rhs : A) : Prop :=
  String.leb (key lhs) (key rhs) = true.

(** The order that [MapFeatures] restores. *)
Definition name_le (lhs rhs : JoystickFeature.t) : Prop :=
  key_le JoystickFeature.Name lhs rhs.

(** The store with the feature-set of one profile cleared. *)
Definition cleared (controllerId : string) (self : CButtonMap) : CButtonMap :=
  {| m_buttonMap := <[controllerId := []]> (m_buttonMap self);
     m_originalButtonMap := m_originalButtonMap self;
     m_timestamp := m_timestamp self;
     m_bModified := m_bModified self |}.

(** What a feature-set claims: its valid primitives. *)
Definition valid (primitive : DriverPrimitive.t) : bool :=
  negb (DriverPrimitive.is_unknown primitive).

(** All primitives of a feature-set, feature by feature and slot by slot. *)
Definition all_primitives (features : FeatureVector) : list DriverPrimitive.t :=
  concat (List.map JoystickFeature.Primitives features).

(** The valid primitives among them. *)
Definition claimed (features : FeatureVector) : list DriverPrimitive.t :=
  List.filter valid (all_primitives features).

(** The calls of [AddControllerMap] that the two loops of [OnAdd] make,
    in order, as pairs [(itFrom, itTo)]. *)
Definition calls (all : list (string * FeatureVector))
    : list ((string * FeatureVector) * (string * FeatureVector)) :=
  flat_map (fun itTo => List.map (fun itFrom => (itFrom, itTo)) (from_entries all itTo.1)) all.

(** The key that a call counts under, and the call itself. *)
Definition call_key (call : (string * FeatureVector) * (string * FeatureVector))
    : ControllerTranslation :=
  (call.1.1, call.2.1).

Definition add_call `{TranslationLess} (self : CControllerTransformer)
    (call : (string * FeatureVector) * (string * FeatureVector)) : CControllerTransformer :=
  (AddControllerMap call.1.1 call.1.2 call.2.1 call.2.2 self).1.

(** All counts of a bucket lie between 1 and [bound]. *)
Definition counts_within (bound : N) (featureMaps : FeatureMaps) : Prop :=
  Forall (fun featureMap => (1 <= featureMap.2 <= bound)%N) featureMaps.

(** No transformer has observed more than 201 devices, and no count
    exceeds the number of observed devices. *)
Definition counts_bounded (self : CControllerTransformer) : Prop :=
  (size (m_observedDevices self) <= 201)%nat
  /\ forall key featureMaps,
       m_controllerMap self !! key = Some featureMaps ->
       counts_within (N.of_nat (size (m_observedDevices self))) featureMaps.

(** ** Sample data *)

(** An order on translations: by [fromFeature], then by [toFeature]. *)
Definition by_from_then_to : TranslationLess :=
  fun lhs rhs =>
    String.ltb (fromFeature lhs) (fromFeature rhs)
    || (String.eqb (fromFeature lhs) (fromFeature rhs)
        && String.ltb (toFeature lhs) (toFeature rhs)).

(** A button primitive and a scalar feature bound to one button. *)
Definition button (index : N) : DriverPrimitive.t :=
  {| DriverPrimitive.Type_ := JOYSTICK_DRIVER_PRIMITIVE_TYPE_BUTTON;
     DriverPrimitive.DriverIndex := index;
     DriverPrimitive.Polarity := 0 |}.

Definition scalar (name : string) (index : N) : JoystickFeature.t :=
  {| JoystickFeature.Name := name;
     JoystickFeature.Type_ := JOYSTICK_FEATURE_TYPE_SCALAR;
     JoystickFeature.Primitives := [button index] |}.

(** A store that holds [buttonMap] and has no backup. *)
Definition loaded (buttonMap : ButtonMap) : CButtonMap :=
  {| m_buttonMap := buttonMap; m_originalButtonMap := ∅;
     m_timestamp := 0; m_bModified := false |}.

(** A button map with two profiles whose first features share button 0,
    and [count] observations of it, by the devices 1 to [count]. *)
Definition sample_buttonMap : ButtonMap :=
  {[ "A" := [scalar "f1" 0; scalar "f2" 1]; "B" := [scalar "g1" 0] ]}.

Definition sample_observations (count : nat) : list (DevicePtr * ButtonMap) :=
  List.map (fun i => (Pos.of_nat i, sample_buttonMap)) (seq 1 count).

(** A second button map for the same two profiles, which pairs "f2" with
    "g2", and a run of three devices with the first map followed by five
    devices with the second. *)
Definition other_buttonMap : ButtonMap :=
  {[ "A" := [scalar "f1" 0; scalar "f2" 1]; "B" := [scalar "g2" 1] ]}.

Definition mixed_observations : list (DevicePtr * ButtonMap) :=
  sample_observations 3
  ++ List.map (fun i => (Pos.of_nat i, other_buttonMap)) (seq 4 5).

(** ** CButtonMap: the cache *)

Definition RESOURCE_LIFETIME_MS : Z := 2000.

(** The value of an [int64_t] expression whose mathematical value is [z]:
    out of the range from [-2^63] to [2^63 - 1] it wraps around, as the
    two's complement addition of the compiled code does. *)
Definition int64_wrap (z : Z) : Z := ((z + 2 ^ 63) mod 2 ^ 64 - 2 ^ 63)%Z.

(** [Load()] is implemented by the subclass that knows the backing
    resource.  [Refresh] takes it as a function from the store before the
    call to the store after it and the result of the call; [now] is the
    result of [GetTimeMs()].  The sum [expires] is an [int64_t]. *)
Definition Refresh (Load : CButtonMap -> CButtonMap * bool) (now : Z)
    (self : CButtonMap) : CButtonMap * bool :=
  let expires := int64_wrap (m_timestamp self + RESOURCE_LIFETIME_MS) in
  if bool_decide (expires <= now)%Z then
    let (self, ok) := Load self in
    if negb ok then (self, false)
    else
      ({| m_buttonMap :=
            map_imap (fun controllerId features => Some (Sanitize controllerId features))
                     (m_buttonMap self);
          m_originalButtonMap := ∅;
          m_timestamp := now;
          m_bModified := m_bModified self |}, true)
  else (self, true).

Definition GetButtonMap (Load : CButtonMap -> CButtonMap * bool) (now : Z)
    (self : CButtonMap) : CButtonMap * ButtonMap :=
  let self := if negb (m_bModified self) then (Refresh Load now self).1 else self in
  (self, m_buttonMap self).

(** ** More notions used by the statements *)

(** What Transform owes for a translation set, in the words of the
    specification and without reference to the loop of
    [TransformFeatures]: the translations are taken in turn, each read in
    the direction of the query ([swap] reads it in reverse); the first
    input feature that has the from-name is appended under the to-name,
    with everything else as it is, and a translation whose from-name no
    input feature has appends nothing. *)
Inductive applies (swap : bool) (features : FeatureVector)
    : FeatureMap -> FeatureVector -> Prop :=
| applies_end : applies swap features [] []
| applies_renamed translation rest appended earlier feature later :
    features = earlier ++ feature :: later ->
    JoystickFeature.Name feature
    = (if swap then toFeature translation else fromFeature translation) ->
    (forall other, In other earlier ->
       JoystickFeature.Name other
       <> (if swap then toFeature translation else fromFeature translation)) ->
    applies swap features rest appended ->
    applies swap features (translation :: rest)
      (JoystickFeature.SetName feature
         (if swap then fromFeature translation else toFeature translation) :: appended)
| applies_skipped translation rest appended :
    (forall other, In other features ->
       JoystickFeature.Name other
       <> (if swap then toFeature translation else fromFeature translation)) ->
    applies swap features rest appended ->
    applies swap features (translation :: rest) appended.

(** The 64-bit range of a timestamp. *)
Definition int64_range (z : Z) : Prop := (- 2 ^ 63 <= z < 2 ^ 63)%Z.

(** A slot after [Sanitize]: as before, or the null primitive. *)
Definition blanked (after before : DriverPrimitive.t) : Prop :=
  after = before \/ after = DriverPrimitive.default.

(** A feature after [Sanitize]: the name, the type and the number of slots
    are as before, and each slot is as before or blanked. *)
Definition derived (after before : JoystickFeature.t) : Prop :=
  JoystickFeature.Name after = JoystickFeature.Name before
  /\ JoystickFeature.Type_ after = JoystickFeature.Type_ before
  /\ Forall2 blanked (JoystickFeature.Primitives after) (JoystickFeature.Primitives before).

(** The invariant of a feature-set: no valid primitive occurs twice, and
    every feature has a valid primitive. *)
Definition sanitized (features : FeatureVector) : Prop :=
  NoDup (claimed features) /\ Forall (fun feature => is_valid feature = true) features.

(** A run of [MapFeatures] calls. *)
Definition map_all (mappings : list (string * FeatureVector)) (self : CButtonMap) : CButtonMap :=
  fold_left (fun self mapping => MapFeatures mapping.1 mapping.2 self) mappings self.

(** The number of observations that a bucket holds. *)
Definition total_count (featureMaps : FeatureMaps) : N :=
  foldr (fun featureMap total => (featureMap.2 + total)%N) 0%N featureMaps.

(** The stores that the operations produce from a new one.  A [Refresh]
    that fails leaves the store as [Load] left it, of which the sources
    say nothing; such a step is not among them. *)
Inductive produced : CButtonMap -> Prop :=
| produced_new : produced new_CButtonMap
| produced_MapFeatures controllerId features self :
    produced self -> produced (MapFeatures controllerId features self)
| produced_SaveButtonMap saved now self :
    produced self -> produced (SaveButtonMap saved now self).1
| produced_RevertButtonMap self :
    produced self -> produced (RevertButtonMap self).1
| produced_ResetButtonMap saved now controllerId self :
    produced self -> produced (ResetButtonMap saved now controllerId self).1
| produced_Refresh Load now self :
    produced self -> (Refresh Load now self).2 = true ->
    produced (Refresh Load now self).1.

(** Every feature-set of a button map keeps the invariant of Sanitize. *)
Definition all_sanitized (buttonMap : ButtonMap) : Prop :=
  forall controllerId features,
    buttonMap !! controllerId = Some features -> sanitized features.

(** The keys of a translation table are canonical: the first controller
    id is not greater than the second, only a pair of two different ids
    has translation sets, and no translation set is empty. *)
Definition keys_canonical (self : CControllerTransformer) : Prop :=
  forall A B featureMaps,
    m_controllerMap self !! (A, B) = Some featureMaps ->
    String.ltb B A = false
    /\ (featureMaps <> [] -> String.ltb A B = true)
    /\ Forall (fun featureMap => featureMap.1 <> []) featureMaps.

(** Two concrete states differ when an observation [read] tells them
    apart. *)
Ltac differ_at read :=
  let Heq := fresh "Heq" in
  intros Heq; apply (f_equal read) in Heq; vm_compute in Heq; discriminate.

(** ** Sanitize keeps the claimed primitives apart *)

Section SanitizeFacts.

Implicit Types (p q : DriverPrimitive.t) (f g : JoystickFeature.t).
Implicit Types (prior features : FeatureVector).
Implicit Types (done slots : list DriverPrimitive.t).

Lemma eqb_true p q : DriverPrimitive.eqb p q = true <-> p = q.
Proof. unfold DriverPrimitive.eqb. apply bool_decide_eq_true. Qed.

Lemma default_unknown : valid DriverPrimitive.default = false.
Proof. reflexivity. Qed.

Lemma all_primitives_app prior (todo : FeatureVector) :
  all_primitives (prior ++ todo) = all_primitives prior ++ all_primitives todo.
Proof. unfold all_primitives. now rewrite List.map_app, concat_app. Qed.

Lemma claimed_app prior (todo : FeatureVector) :
  claimed (prior ++ todo) = claimed prior ++ claimed todo.
Proof. unfold claimed. now rewrite all_primitives_app, List.filter_app. Qed.

Lemma claimed_cons f features :
  claimed (f :: features)
  = List.filter valid (JoystickFeature.Primitives f) ++ claimed features.
Proof. unfold claimed, all_primitives. simpl. now rewrite List.filter_app. Qed.

Lemma claimed_one f :
  claimed [f] = List.filter valid (JoystickFeature.Primitives f).
Proof. rewrite claimed_cons. unfold claimed. simpl. apply app_nil_r. Qed.

Lemma existsb_eqb p slots :
  existsb (fun q => DriverPrimitive.eqb q p) slots = true <-> In p slots.
Proof.
  rewrite existsb_exists. split.
  - intros (q & Hin & Heq). apply eqb_true in Heq. now subst.
  - intros Hin. exists p. split; [assumption | now apply eqb_true].
Qed.

(** [bFound] holds exactly when the primitive occurs before. *)
Lemma found_before_In prior done p :
  found_before prior done p = true <-> In p (all_primitives prior ++ done).
Proof.
  unfold found_before, all_primitives.
  rewrite orb_true_iff, in_app_iff, existsb_eqb, in_concat, existsb_exists.
  split; (intros [Hprior | Hdone]; [left | now right]).
  - destruct Hprior as (f & Hf & Hp). apply existsb_eqb in Hp.
    exists (JoystickFeature.Primitives f). split; [now apply in_map | assumption].
  - destruct Hprior as (slots & Hslots & Hp).
    apply in_map_iff in Hslots as (f & <- & Hf).
    exists f. split; [assumption | now apply existsb_eqb].
Qed.

(** A valid primitive that was found before is among the claimed ones. *)
Lemma found_before_claimed prior done p :
  valid p = true -> found_before prior done p = true ->
  In p (claimed prior ++ List.filter valid done).
Proof.
  intros Hvalid Hfound. apply found_before_In in Hfound.
  unfold claimed. rewrite <- List.filter_app. apply filter_In. now split.
Qed.

Lemma not_found_not_claimed prior done p :
  found_before prior done p = false ->
  ~ In p (claimed prior ++ List.filter valid done).
Proof.
  intros Hfound Hin. unfold claimed in Hin. rewrite <- List.filter_app in Hin.
  apply filter_In in Hin as [Hin _]. apply found_before_In in Hin. congruence.
Qed.

Lemma NoDup_snoc {A} (l : list A) (x : A) :
  NoDup l -> ~ In x l -> NoDup (l ++ [x]).
Proof.
  intros Hl Hx. apply NoDup_app. repeat split.
  - assumption.
  - intros y Hy Hy'. apply list_elem_of_In in Hy.
    apply list_elem_of_In in Hy'. destruct Hy' as [<- | []]. contradiction.
  - apply NoDup_singleton.
Qed.

(** The inner loop keeps the claimed primitives free of duplicates. *)
Lemma sanitize_primitives_NoDup prior (todo : list DriverPrimitive.t) : forall done,
  NoDup (claimed prior ++ List.filter valid done) ->
  NoDup (claimed prior ++ List.filter valid (sanitize_primitives prior done todo)).
Proof.
  induction todo as [| p rest IH]; intros done Hdone; simpl; [assumption |].
  apply IH. rewrite List.filter_app. simpl.
  destruct (DriverPrimitive.is_unknown p) eqn:Hunknown.
  - unfold valid. rewrite Hunknown. simpl. now rewrite app_nil_r.
  - destruct (found_before prior done p) eqn:Hfound.
    + rewrite default_unknown, app_nil_r. assumption.
    + unfold valid at 2. rewrite Hunknown. simpl. rewrite app_assoc.
      apply NoDup_snoc; [assumption | now apply not_found_not_claimed].
Qed.

(** So does the outer loop. *)
Lemma sanitize_features_NoDup (todo : FeatureVector) : forall prior,
  NoDup (claimed prior) -> NoDup (claimed (sanitize_features prior todo)).
Proof.
  induction todo as [| f rest IH]; intros prior Hprior; simpl; [assumption |].
  apply IH. rewrite claimed_app, claimed_one. simpl.
  apply sanitize_primitives_NoDup. simpl. now rewrite app_nil_r.
Qed.

Lemma is_valid_claims f :
  is_valid f = false -> List.filter valid (JoystickFeature.Primitives f) = [].
Proof.
  unfold is_valid. fold valid.
  induction (JoystickFeature.Primitives f) as [| p slots IH]; simpl; [reflexivity |].
  destruct (valid p); simpl; [discriminate | exact IH].
Qed.

(** The erase pass removes no claimed primitive. *)
Lemma claimed_filter_is_valid features :
  claimed (List.filter is_valid features) = claimed features.
Proof.
  induction features as [| f features IH]; [reflexivity |].
  simpl. destruct (is_valid f) eqn:Hf.
  - now rewrite !claimed_cons, IH.
  - rewrite claimed_cons, IH. now rewrite (is_valid_claims f Hf).
Qed.

Lemma Sanitize_NoDup controllerId features :
  NoDup (claimed (Sanitize controllerId features)).
Proof.
  unfold Sanitize. rewrite claimed_filter_is_valid.
  apply sanitize_features_NoDup. constructor.
Qed.

Lemma Sanitize_all_valid controllerId features :
  Forall (fun f => is_valid f = true) (Sanitize controllerId features).
Proof.
  unfold Sanitize. apply Forall_forall. intros f Hf.
  apply list_elem_of_In, filter_In in Hf. tauto.
Qed.

Lemma In_claimed features f p :
  In f features -> In p (JoystickFeature.Primitives f) -> valid p = true ->
  In p (claimed features).
Proof.
  intros Hf Hp Hvalid. unfold claimed, all_primitives.
  apply filter_In. split; [| assumption].
  apply in_concat. exists (JoystickFeature.Primitives f).
  split; [now apply in_map | assumption].
Qed.

(** Without duplicates among the claimed primitives, two features at
    different positions share no valid primitive. *)
Lemma NoDup_claimed_features features :
  NoDup (claimed features) ->
  forall i j f g p,
    (i < j)%nat -> features !! i = Some f -> features !! j = Some g ->
    In p (JoystickFeature.Primitives f) -> In p (JoystickFeature.Primitives g) ->
    valid p = false.
Proof.
  induction features as [| h features IH]; intros Hnd i j f g p Hij Hi Hj Hf Hg.
  - discriminate.
  - rewrite claimed_cons in Hnd. apply NoDup_app in Hnd as (_ & Hdisj & Hnd).
    destruct j as [| j]; [lia |]. simpl in Hj.
    destruct i as [| i]; simpl in Hi.
    + injection Hi as ->. destruct (valid p) eqn:Hvalid; [| reflexivity].
      exfalso. apply (Hdisj p).
      * apply list_elem_of_In, filter_In. now split.
      * apply list_elem_of_In. apply In_claimed with (f := g); try assumption.
        apply list_elem_of_In. now apply list_elem_of_lookup_2 with j.
    + apply (IH Hnd i j f g p); [lia | assumption ..].
Qed.

(** Nor does one feature hold a valid primitive in two slots. *)
Lemma NoDup_valid_slots slots :
  NoDup (List.filter valid slots) ->
  forall a b p,
    (a < b)%nat -> slots !! a = Some p -> slots !! b = Some p -> valid p = false.
Proof.
  induction slots as [| q slots IH]; intros Hnd a b p Hab Ha Hb.
  - discriminate.
  - destruct b as [| b]; [lia |]. simpl in Hb.
    destruct a as [| a]; simpl in Ha.
    + injection Ha as ->. destruct (valid p) eqn:Hvalid; [| reflexivity].
      simpl in Hnd. rewrite Hvalid in Hnd. apply NoDup_cons in Hnd as [Hnotin _].
      exfalso. apply Hnotin, list_elem_of_In, filter_In. split; [| assumption].
      apply list_elem_of_In. now apply list_elem_of_lookup_2 with b.
    + apply (IH) with a b; [| lia | assumption ..].
      simpl in Hnd. destruct (valid q); [| assumption].
      now apply NoDup_cons in Hnd as [_ Hnd].
Qed.

Lemma NoDup_claimed_feature features f :
  NoDup (claimed features) -> In f features ->
  NoDup (List.filter valid (JoystickFeature.Primitives f)).
Proof.
  induction features as [| h features IH]; intros Hnd Hf; [destruct Hf |].
  rewrite claimed_cons in Hnd. apply NoDup_app in Hnd as (Hh & _ & Hnd).
  destruct Hf as [-> | Hf]; [assumption | now apply IH].
Qed.

(** *** Sanitize changes nothing where nothing is claimed twice *)

Lemma sanitize_primitives_id prior (todo : list DriverPrimitive.t) : forall done,
  NoDup (claimed prior ++ List.filter valid (done ++ todo)) ->
  sanitize_primitives prior done todo = done ++ todo.
Proof.
  induction todo as [| p rest IH]; intros done Hnd; simpl.
  - now rewrite app_nil_r.
  - assert (Hkeep : (if DriverPrimitive.is_unknown p then p
                     else if found_before prior done p
                          then DriverPrimitive.default else p) = p).
    { destruct (DriverPrimitive.is_unknown p) eqn:Hunknown; [reflexivity |].
      destruct (found_before prior done p) eqn:Hfound; [| reflexivity].
      exfalso.
      assert (Hvalid : valid p = true) by (unfold valid; now rewrite Hunknown).
      pose proof (found_before_claimed prior done p Hvalid Hfound) as Hin.
      rewrite List.filter_app, app_assoc in Hnd. simpl in Hnd. rewrite Hvalid in Hnd.
      apply NoDup_app in Hnd as (_ & Hdisj & _).
      apply (Hdisj p); [now apply list_elem_of_In | left]. }
    rewrite Hkeep, IH; rewrite <- app_assoc; [reflexivity | exact Hnd].
Qed.

Lemma SetPrimitives_same f :
  JoystickFeature.SetPrimitives f (JoystickFeature.Primitives f) = f.
Proof. now destruct f. Qed.

Lemma sanitize_features_id (todo : FeatureVector) : forall prior,
  NoDup (claimed (prior ++ todo)) -> sanitize_features prior todo = prior ++ todo.
Proof.
  induction todo as [| f rest IH]; intros prior Hnd; simpl.
  - now rewrite app_nil_r.
  - rewrite sanitize_primitives_id.
    + simpl. rewrite SetPrimitives_same, IH; rewrite <- app_assoc; [reflexivity | exact Hnd].
    + simpl. rewrite claimed_app, claimed_cons, app_assoc in Hnd.
      apply NoDup_app in Hnd as (Hnd & _ & _). exact Hnd.
Qed.

Lemma filter_all {A} (keep : A -> bool) (l : list A) :
  Forall (fun x => keep x = true) l -> List.filter keep l = l.
Proof.
  induction 1 as [| x l Hx _ IH]; simpl; [reflexivity |]. now rewrite Hx, IH.
Qed.

Lemma Sanitize_fixed controllerId features :
  NoDup (claimed features) -> Forall (fun f => is_valid f = true) features ->
  Sanitize controllerId features = features.
Proof.
  intros Hnd Hvalid. unfold Sanitize.
  rewrite sanitize_features_id by exact Hnd. simpl. now apply filter_all.
Qed.

End SanitizeFacts.

(** ** The order of [std::string] *)

Lemma ltb_asym (a b : string) : String.ltb a b = true -> String.ltb b a = false.
Proof.
  unfold String.ltb. rewrite (String.compare_antisym a b).
  now destruct (String.compare b a).
Qed.

Lemma ascii_compare_refl (c : ascii) : Ascii.compare c c = Eq.
Proof. unfold Ascii.compare. apply N.compare_refl. Qed.

Lemma ascii_compare_eq (c d : ascii) : Ascii.compare c d = Eq -> c = d.
Proof.
  unfold Ascii.compare. intros Heq. apply N.compare_eq in Heq.
  rewrite <- (ascii_N_embedding c), <- (ascii_N_embedding d). now f_equal.
Qed.

Lemma ascii_compare_trans (c d e : ascii) :
  Ascii.compare c d = Lt -> Ascii.compare d e = Lt -> Ascii.compare c e = Lt.
Proof. unfold Ascii.compare. rewrite !N.compare_lt_iff. apply N.lt_trans. Qed.

Lemma compare_lt_trans (a : string) : forall b c,
  String.compare a b = Lt -> String.compare b c = Lt -> String.compare a c = Lt.
Proof.
  induction a as [| x a IH]; intros [| y b] [| z c]; simpl; try congruence.
  destruct (Ascii.compare x y) eqn:Hxy, (Ascii.compare y z) eqn:Hyz; try congruence.
  - apply ascii_compare_eq in Hxy, Hyz. subst. rewrite ascii_compare_refl. apply IH.
  - apply ascii_compare_eq in Hxy. subst. now rewrite Hyz.
  - apply ascii_compare_eq in Hyz. subst. now rewrite Hxy.
  - now rewrite (ascii_compare_trans x y z).
Qed.

Lemma ltb_trans (a b c : string) :
  String.ltb a b = true -> String.ltb b c = true -> String.ltb a c = true.
Proof.
  unfold String.ltb. intros Hab Hbc.
  destruct (String.compare a b) eqn:Eab; try discriminate.
  destruct (String.compare b c) eqn:Ebc; try discriminate.
  now rewrite (compare_lt_trans a b c).
Qed.

Lemma leb_ltb_trans (a b c : string) :
  String.leb a b = true -> String.ltb b c = true -> String.ltb a c = true.
Proof.
  unfold String.leb. intros Hab Hbc.
  destruct (String.ltb a c) eqn:Hac; [reflexivity |]. exfalso.
  unfold String.ltb in Hac. destruct (String.compare a c) eqn:Hcmp; try discriminate.
  - apply String.compare_eq_iff in Hcmp. subst c.
    unfold String.ltb in Hbc. rewrite (String.compare_antisym b a) in Hbc.
    destruct (String.compare a b); simpl in *; discriminate.
  - assert (Hca : String.ltb c a = true).
    { unfold String.ltb. now rewrite (String.compare_antisym c a), Hcmp. }
    pose proof (ltb_trans b c a Hbc Hca) as Hba.
    unfold String.ltb in Hba. rewrite (String.compare_antisym b a) in Hba.
    destruct (String.compare a b); simpl in *; discriminate.
Qed.

Lemma leb_ltb (a b : string) : String.leb a b = negb (String.ltb b a).
Proof.
  unfold String.leb, String.ltb. rewrite (String.compare_antisym a b).
  now destruct (String.compare b a).
Qed.

(** ** Sorting by a key *)

Section SortBy.

Context {A : Type} (key : A -> string).

Lemma insert_by_Permutation (x : A) (sorted : list A) :
  Permutation (x :: sorted) (insert_by key x sorted).
Proof.
  induction sorted as [| rhs rest IH]; simpl; [reflexivity |].
  destruct (String.ltb _ _); [reflexivity |].
  rewrite perm_swap. now apply perm_skip.
Qed.

Lemma sort_by_Permutation (l : list A) : Permutation l (sort_by key l).
Proof.
  induction l as [| x l IH]; simpl; [reflexivity |].
  rewrite <- insert_by_Permutation. now apply perm_skip.
Qed.

Lemma insert_by_sorted (x : A) (sorted : list A) :
  StronglySorted (key_le key) sorted -> StronglySorted (key_le key) (insert_by key x sorted).
Proof.
  induction 1 as [| rhs rest Hrest IH Hrhs]; simpl.
  - repeat constructor.
  - destruct (String.ltb (key x) (key rhs)) eqn:Hlt.
    + constructor; [now constructor |].
      assert (Hx : key_le key x rhs).
      { unfold key_le. rewrite leb_ltb. now rewrite (ltb_asym _ _ Hlt). }
      constructor; [exact Hx |].
      eapply Forall_impl; [exact Hrhs |]. intros y Hy. unfold key_le in *.
      rewrite leb_ltb in *.
      destruct (String.ltb (key y) (key x)) eqn:Hyx; [| reflexivity].
      rewrite (ltb_trans _ _ _ Hyx Hlt) in Hy. discriminate.
    + constructor; [exact IH |].
      rewrite <- insert_by_Permutation. constructor; [| exact Hrhs].
      unfold key_le. rewrite leb_ltb. now rewrite Hlt.
Qed.

Lemma sort_by_sorted (l : list A) : StronglySorted (key_le key) (sort_by key l).
Proof.
  induction l as [| x l IH]; simpl; [constructor |].
  now apply insert_by_sorted.
Qed.

End SortBy.

Lemma sort_by_name_Permutation (features : FeatureVector) :
  Permutation features (sort_by_name features).
Proof. apply sort_by_Permutation. Qed.

Lemma sort_by_name_sorted (features : FeatureVector) :
  StronglySorted name_le (sort_by_name features).
Proof. apply sort_by_sorted. Qed.

(** ** The button map store *)

Lemma empty_true (buttonMap : ButtonMap) : empty buttonMap = true <-> buttonMap = ∅.
Proof. unfold empty. apply bool_decide_eq_true. Qed.

Lemma empty_false (buttonMap : ButtonMap) : empty buttonMap = false <-> buttonMap <> ∅.
Proof. unfold empty. apply bool_decide_eq_false. Qed.

Lemma MapFeatures_lookup (controllerId : string) (features : FeatureVector) (self : CButtonMap) :
  m_buttonMap (MapFeatures controllerId features self) !! controllerId
  = Some (sort_by_name
            (Sanitize controllerId
               (features ++ remove_same_name features
                              (default [] (m_buttonMap self !! controllerId))))).
Proof. unfold MapFeatures. simpl. apply lookup_insert_eq. Qed.

(** ** Sanitize on a feature-set in two parts *)

Lemma sanitize_features_app (first second : FeatureVector) : forall prior,
  sanitize_features prior (first ++ second)
  = sanitize_features (sanitize_features prior first) second.
Proof.
  induction first as [| f first IH]; intros prior; simpl; [reflexivity | apply IH].
Qed.

(** The loop extends [prior] by one feature for each feature of [todo],
    under the same name. *)
Lemma sanitize_features_extends (todo : FeatureVector) : forall prior,
  exists tail,
    sanitize_features prior todo = prior ++ tail
    /\ List.map JoystickFeature.Name tail = List.map JoystickFeature.Name todo.
Proof.
  induction todo as [| f rest IH]; intros prior; simpl.
  - exists []. now rewrite app_nil_r.
  - destruct (IH (prior ++ [JoystickFeature.SetPrimitives f
                              (sanitize_primitives prior [] (JoystickFeature.Primitives f))]))
      as (tail & Heq & Hnames).
    eexists (_ :: tail). rewrite Heq, <- app_assoc. simpl. split; [reflexivity |].
    now rewrite Hnames.
Qed.

(** Every valid primitive stays claimed: the inner loop only drops a
    primitive that is claimed before. *)
Lemma sanitize_primitives_keeps (prior : FeatureVector) (todo : list DriverPrimitive.t) :
  forall done p,
    In p (claimed prior ++ List.filter valid (done ++ todo)) ->
    In p (claimed prior ++ List.filter valid (sanitize_primitives prior done todo)).
Proof.
  induction todo as [| q rest IH]; intros done p Hp; simpl.
  - now rewrite app_nil_r in Hp.
  - apply IH. rewrite <- app_assoc. simpl.
    destruct (DriverPrimitive.is_unknown q) eqn:Hunknown; [exact Hp |].
    destruct (found_before prior done q) eqn:Hfound; [| exact Hp].
    assert (Hvalid : valid q = true) by (unfold valid; now rewrite Hunknown).
    pose proof (found_before_claimed prior done q Hvalid Hfound) as Hq.
    rewrite List.filter_app in Hp |- *. simpl in Hp |- *.
    rewrite Hvalid in Hp.
    rewrite !in_app_iff in Hp |- *. rewrite in_app_iff in Hq. simpl in Hp.
    destruct Hp as [Hp | [Hp | [<- | Hp]]]; tauto.
Qed.

Lemma sanitize_features_keeps (todo : FeatureVector) : forall prior p,
  In p (claimed (prior ++ todo)) -> In p (claimed (sanitize_features prior todo)).
Proof.
  induction todo as [| f rest IH]; intros prior p Hp; simpl.
  - now rewrite app_nil_r in Hp.
  - apply IH. rewrite claimed_app, claimed_cons in Hp.
    rewrite !claimed_app, claimed_one. simpl.
    rewrite app_assoc in Hp. apply in_app_iff in Hp. apply in_app_iff.
    destruct Hp as [Hp | Hp]; [left | now right].
    now apply (sanitize_primitives_keeps prior (JoystickFeature.Primitives f) []).
Qed.

(** Sanitizing [first ++ second] treats [first] as if it were alone. *)
Lemma Sanitize_app (controllerId : string) (first second : FeatureVector) :
  exists tail,
    sanitize_features [] (first ++ second) = sanitize_features [] first ++ tail
    /\ List.map JoystickFeature.Name tail = List.map JoystickFeature.Name second
    /\ Sanitize controllerId (first ++ second)
       = Sanitize controllerId first ++ List.filter is_valid tail.
Proof.
  destruct (sanitize_features_extends second (sanitize_features [] first))
    as (tail & Heq & Hnames).
  exists tail. rewrite sanitize_features_app, Heq. repeat split; [assumption |].
  unfold Sanitize. now rewrite sanitize_features_app, Heq, List.filter_app.
Qed.

(** A feature that survives from [second] holds no valid primitive of a
    feature of [first]. *)
Lemma Sanitize_first_wins (controllerId : string) (first second : FeatureVector)
    (g : JoystickFeature.t) (p : DriverPrimitive.t) :
  In g (Sanitize controllerId (first ++ second)) ->
  ~ In (JoystickFeature.Name g) (List.map JoystickFeature.Name first) ->
  In p (JoystickFeature.Primitives g) -> valid p = true ->
  forall f, In f first -> ~ In p (JoystickFeature.Primitives f).
Proof.
  intros Hg Hname Hp Hvalid f Hf Hpf.
  destruct (Sanitize_app controllerId first second) as (tail & Heq & _ & HS).
  destruct (sanitize_features_extends first []) as (first' & Hfirst & Hnames).
  simpl in Hfirst.
  assert (Hnd : NoDup (claimed (sanitize_features [] (first ++ second))))
    by (apply sanitize_features_NoDup; constructor).
  rewrite Heq, claimed_app in Hnd. apply NoDup_app in Hnd as (_ & Hdisj & _).
  apply (Hdisj p).
  - apply list_elem_of_In. apply (sanitize_features_keeps first [] p). simpl.
    now apply In_claimed with f.
  - apply list_elem_of_In.
    rewrite HS in Hg. apply in_app_iff in Hg as [Hg | Hg].
    + exfalso. apply Hname. unfold Sanitize in Hg. apply filter_In in Hg as [Hg _].
      rewrite Hfirst in Hg. rewrite <- Hnames. now apply in_map.
    + apply filter_In in Hg as [Hg _]. now apply In_claimed with g.
Qed.

(** After the erase/remove_if loop no feature carries the name of a new
    feature. *)
Lemma remove_same_name_names (features : FeatureVector) : forall myFeatures g,
  In g (remove_same_name features myFeatures) ->
  In g myFeatures /\ ~ In (JoystickFeature.Name g) (List.map JoystickFeature.Name features).
Proof.
  unfold remove_same_name.
  induction features as [| f features IH]; intros myFeatures g Hg; simpl in *.
  - tauto.
  - apply IH in Hg as [Hg Hnot]. apply filter_In in Hg as [Hg Hne].
    split; [assumption |]. intros [Heq | Hin]; [| contradiction].
    apply negb_true_iff, String.eqb_neq in Hne. congruence.
Qed.

(** ** Claims about Sanitize *)

Lemma valid_false (p : DriverPrimitive.t) :
  valid p = false <-> DriverPrimitive.Type_ p = JOYSTICK_DRIVER_PRIMITIVE_TYPE_UNKNOWN.
Proof.
  unfold valid, DriverPrimitive.is_unknown.
  rewrite negb_false_iff. apply bool_decide_eq_true.
Qed.

Lemma valid_true (p : DriverPrimitive.t) :
  valid p = true <-> DriverPrimitive.Type_ p <> JOYSTICK_DRIVER_PRIMITIVE_TYPE_UNKNOWN.
Proof.
  unfold valid, DriverPrimitive.is_unknown.
  rewrite negb_true_iff. apply bool_decide_eq_false.
Qed.

(** C1: after Sanitize, two surviving features at different positions
    have no primitive in common other than unknown ones, no surviving
    feature holds a primitive other than an unknown one in two slots, and
    every surviving feature holds a primitive that is not unknown. *)
Theorem Sanitize_no_duplicate_primitive (controllerId : string) (features : FeatureVector) :
  let surviving := Sanitize controllerId features in
  (forall i j f g p,
      i <> j -> surviving !! i = Some f -> surviving !! j = Some g ->
      In p (JoystickFeature.Primitives f) -> In p (JoystickFeature.Primitives g) ->
      DriverPrimitive.Type_ p = JOYSTICK_DRIVER_PRIMITIVE_TYPE_UNKNOWN)
  /\ (forall f a b p,
         In f surviving -> a <> b ->
         JoystickFeature.Primitives f !! a = Some p ->
         JoystickFeature.Primitives f !! b = Some p ->
         DriverPrimitive.Type_ p = JOYSTICK_DRIVER_PRIMITIVE_TYPE_UNKNOWN)
  /\ (forall f,
         In f surviving ->
         exists p, In p (JoystickFeature.Primitives f)
                   /\ DriverPrimitive.Type_ p <> JOYSTICK_DRIVER_PRIMITIVE_TYPE_UNKNOWN).
Proof.
  intros surviving.
  pose proof (Sanitize_NoDup controllerId features) as Hnd. fold surviving in Hnd.
  split; [| split].
  - intros i j f g p Hij Hi Hj Hf Hg. apply valid_false.
    destruct (Nat.lt_total i j) as [Hlt | [Heq | Hlt]]; [| contradiction |].
    + exact (NoDup_claimed_features surviving Hnd i j f g p Hlt Hi Hj Hf Hg).
    + exact (NoDup_claimed_features surviving Hnd j i g f p Hlt Hj Hi Hg Hf).
  - intros f a b p Hf Hab Ha Hb. apply valid_false.
    pose proof (NoDup_claimed_feature surviving f Hnd Hf) as Hslots.
    destruct (Nat.lt_total a b) as [Hlt | [Heq | Hlt]]; [| contradiction |].
    + exact (NoDup_valid_slots _ Hslots a b p Hlt Ha Hb).
    + exact (NoDup_valid_slots _ Hslots b a p Hlt Hb Ha).
  - intros f Hf.
    pose proof (Sanitize_all_valid controllerId features) as Hall.
    rewrite Forall_forall in Hall. apply list_elem_of_In, Hall in Hf.
    unfold is_valid in Hf. apply existsb_exists in Hf as (p & Hp & Hvalid).
    exists p. split; [assumption | now apply valid_true].
Qed.

(** C8: sanitizing a sanitized feature-set changes nothing. *)
Theorem Sanitize_idempotent (controllerId : string) (features : FeatureVector) :
  Sanitize controllerId (Sanitize controllerId features) = Sanitize controllerId features.
Proof.
  apply Sanitize_fixed; [apply Sanitize_NoDup | apply Sanitize_all_valid].
Qed.

(** ** Claims about the button map store *)

(** C10: after MapFeatures the feature-set of the profile is in
    ascending order of the feature names. *)
Theorem MapFeatures_sorted (controllerId : string) (features : FeatureVector)
    (self : CButtonMap) :
  exists myFeatures,
    m_buttonMap (MapFeatures controllerId features self) !! controllerId = Some myFeatures
    /\ StronglySorted name_le myFeatures.
Proof.
  eexists. split; [apply MapFeatures_lookup | apply sort_by_name_sorted].
Qed.

(** C3 does not hold as the spec words it.  With a backup already taken,
    a second MapFeatures followed by RevertButtonMap goes back to the
    state before the first MapFeatures, not to the state before the
    second; and on a store whose button map is empty, RevertButtonMap
    after MapFeatures returns false and keeps the mapped feature. *)
Lemma RevertButtonMap_not_previous_state :
  let before := MapFeatures "c" [scalar "b" 1] (loaded {["c" := [scalar "a" 0]]}) in
  let after := RevertButtonMap (MapFeatures "c" [scalar "x" 2] before) in
  let fresh := RevertButtonMap (MapFeatures "c" [scalar "a" 0] new_CButtonMap) in
  (after.2 = true /\ m_buttonMap after.1 <> m_buttonMap before)
  /\ (fresh.2 = false /\ m_buttonMap fresh.1 <> m_buttonMap new_CButtonMap).
Proof.
  repeat split.
  - differ_at (fun buttonMap : ButtonMap => buttonMap !! "c").
  - differ_at (fun buttonMap : ButtonMap => buttonMap !! "c").
Qed.

(** C3, in the form that holds: on a store without backup whose button
    map is not empty, RevertButtonMap right after MapFeatures returns true
    and restores the button map it had before MapFeatures; and in every
    state RevertButtonMap returns false exactly when the backup is empty,
    and then changes nothing. *)
Theorem MapFeatures_then_RevertButtonMap (controllerId : string) (features : FeatureVector)
    (self : CButtonMap) :
  m_originalButtonMap self = ∅ -> m_buttonMap self <> ∅ ->
  (let reverted := RevertButtonMap (MapFeatures controllerId features self) in
   reverted.2 = true /\ m_buttonMap reverted.1 = m_buttonMap self)
  /\ (forall other : CButtonMap,
         ((RevertButtonMap other).2 = false <-> m_originalButtonMap other = ∅)
         /\ ((RevertButtonMap other).2 = false -> (RevertButtonMap other).1 = other)).
Proof.
  intros Hbackup Hmap. split.
  - unfold RevertButtonMap, MapFeatures. simpl.
    apply empty_true in Hbackup. rewrite Hbackup.
    apply empty_false in Hmap. rewrite Hmap. simpl. now split.
  - intros other. unfold RevertButtonMap.
    destruct (empty (m_originalButtonMap other)) eqn:Hempty; simpl.
    + apply empty_true in Hempty. tauto.
    + apply empty_false in Hempty. split; [split |]; intros; congruence.
Qed.

Lemma MapFeatures_then_RevertButtonMap_witness :
  let self := loaded {["c" := [scalar "a" 0]]} in
  let reverted := RevertButtonMap (MapFeatures "c" [scalar "b" 0] self) in
  reverted.2 = true /\ m_buttonMap reverted.1 = m_buttonMap self.
Proof.
  refine (proj1 (MapFeatures_then_RevertButtonMap "c" [scalar "b" 0]
                   (loaded {["c" := [scalar "a" 0]]}) _ _)).
  - reflexivity.
  - differ_at (fun buttonMap : ButtonMap => buttonMap !! "c").
Defined.

(** C7 does not hold as the spec words it: ResetButtonMap clears the
    features before it saves, and a failed save returns false with the
    features lost. *)
Lemma ResetButtonMap_loses_features :
  let self := loaded {["c" := [scalar "a" 0]]} in
  let reset := ResetButtonMap false 5 "c" self in
  reset.2 = false
  /\ m_buttonMap self !! "c" = Some [scalar "a" 0]
  /\ m_buttonMap reset.1 !! "c" = Some [].
Proof. repeat split. Qed.

(** C7, in the form that holds: a failed save makes SaveButtonMap return
    false and change nothing; ResetButtonMap then returns false too, with
    the feature-set of the profile cleared and nothing else changed.
    ResetButtonMap on an empty feature-set returns false whatever the save
    would do: it changes nothing if the profile has an entry, and gives
    the profile an empty entry if it has none. *)
Theorem failed_save (now : Z) (controllerId : string) (self : CButtonMap) :
  SaveButtonMap false now self = (self, false)
  /\ ResetButtonMap false now controllerId self = (cleared controllerId self, false)
  /\ (forall saved,
         m_buttonMap self !! controllerId = Some [] ->
         ResetButtonMap saved now controllerId self = (self, false))
  /\ (forall saved,
         m_buttonMap self !! controllerId = None ->
         ResetButtonMap saved now controllerId self = (cleared controllerId self, false)).
Proof.
  split; [reflexivity |]. unfold ResetButtonMap, cleared.
  split; [| split].
  - destruct (m_buttonMap self !! controllerId) as [features |] eqn:Hlookup; simpl.
    + case_bool_decide as Hfeatures; simpl; [now subst | reflexivity].
    + reflexivity.
  - intros saved Hlookup. rewrite Hlookup. simpl.
    rewrite insert_id by assumption. now destruct self.
  - intros saved Hlookup. now rewrite Hlookup.
Qed.

(** C6 does not hold as the spec words it: the new features are put in
    front of the existing ones, so the new feature b takes button 0 from
    the existing feature a, which is left without primitive and erased.
    Appending b after a would have kept a instead. *)
Lemma MapFeatures_not_appended :
  let self := loaded {["c" := [scalar "a" 0]]} in
  let existing := remove_same_name [scalar "b" 0] [scalar "a" 0] in
  m_buttonMap (MapFeatures "c" [scalar "b" 0] self) !! "c" = Some [scalar "b" 0]
  /\ sort_by_name (Sanitize "c" (existing ++ [scalar "b" 0])) = [scalar "a" 0].
Proof. split; reflexivity. Qed.

(** C6, in the form that holds: MapFeatures removes the existing
    features that have the name of a new one, puts the new features in
    front of the others, sanitizes the whole and sorts it by name.  So the
    new features survive as they would on their own, and a surviving
    feature of another name holds no valid primitive of a new feature. *)
Theorem MapFeatures_new_features_first (controllerId : string) (features : FeatureVector)
    (self : CButtonMap) :
  let existing := default [] (m_buttonMap self !! controllerId) in
  let myFeatures :=
    default [] (m_buttonMap (MapFeatures controllerId features self) !! controllerId) in
  myFeatures
  = sort_by_name (Sanitize controllerId (features ++ remove_same_name features existing))
  /\ (forall g,
         In g (remove_same_name features existing) ->
         In g existing
         /\ ~ In (JoystickFeature.Name g) (List.map JoystickFeature.Name features))
  /\ (forall f, In f (Sanitize controllerId features) -> In f myFeatures)
  /\ (forall g p,
         In g myFeatures ->
         ~ In (JoystickFeature.Name g) (List.map JoystickFeature.Name features) ->
         In p (JoystickFeature.Primitives g) ->
         DriverPrimitive.Type_ p <> JOYSTICK_DRIVER_PRIMITIVE_TYPE_UNKNOWN ->
         forall f, In f features -> ~ In p (JoystickFeature.Primitives f)).
Proof.
  intros existing myFeatures.
  assert (Heq : myFeatures
                = sort_by_name (Sanitize controllerId
                                  (features ++ remove_same_name features existing))).
  { unfold myFeatures. now rewrite MapFeatures_lookup. }
  split; [exact Heq |]. rewrite Heq.
  split; [apply remove_same_name_names |]. split.
  - intros f Hf. eapply Permutation_in; [apply sort_by_name_Permutation |].
    destruct (Sanitize_app controllerId features (remove_same_name features existing))
      as (tail & _ & _ & ->).
    apply in_app_iff. now left.
  - intros g p Hg Hname Hp Hvalid.
    eapply Permutation_in in Hg; [| symmetry; apply sort_by_name_Permutation].
    apply valid_true in Hvalid.
    now apply (Sanitize_first_wins controllerId features
                 (remove_same_name features existing) g p).
Qed.

(** ** The controller transformer: the observed devices *)

Section TransformerFacts.

Context `{TranslationLess}.

Lemma AddControllerMap_observed (controllerFrom : string) (featuresFrom : FeatureVector)
    (controllerTo : string) (featuresTo : FeatureVector) (self : CControllerTransformer) :
  m_observedDevices (AddControllerMap controllerFrom featuresFrom
                                      controllerTo featuresTo self).1
  = m_observedDevices self.
Proof. unfold AddControllerMap. now destruct (translations _ _). Qed.

Lemma fold_left_keeps {S A B} (step : S -> A -> S) (field : S -> B) (l : list A) :
  (forall s x, field (step s x) = field s) ->
  forall s, field (fold_left step l s) = field s.
Proof.
  intros Hstep. induction l as [| x l IH]; intros s; simpl; [reflexivity |].
  now rewrite IH.
Qed.

Lemma NoDup_take {A} (n : nat) (l : list A) : NoDup l -> NoDup (take n l).
Proof.
  intros Hnd. rewrite <- (take_drop n l) in Hnd. now apply NoDup_app in Hnd as (? & _ & _).
Qed.

(** [OnAdd] changes the set of observed devices only by adding the
    device, and only when neither guard returns early. *)
Lemma OnAdd_observed (driverInfo : DevicePtr) (buttonMap : ButtonMap)
    (self : CControllerTransformer) :
  m_observedDevices (OnAdd driverInfo buttonMap self)
  = if bool_decide (200 < size (m_observedDevices self))%nat then m_observedDevices self
    else {[driverInfo]} ∪ m_observedDevices self.
Proof.
  unfold OnAdd. case_bool_decide; [reflexivity |].
  case_bool_decide as Hdevice.
  { symmetry. apply subseteq_union_1_L. now apply singleton_subseteq_l. }
  rewrite (fold_left_keeps _ m_observedDevices); [reflexivity |].
  intros s itTo. rewrite (fold_left_keeps _ m_observedDevices); [reflexivity |].
  intros s' itFrom. apply AddControllerMap_observed.
Qed.

(** The sanity check: with more than 200 observed devices [OnAdd]
    returns at once. *)
Lemma OnAdd_sanity_check (driverInfo : DevicePtr) (buttonMap : ButtonMap)
    (self : CControllerTransformer) :
  (200 < size (m_observedDevices self))%nat -> OnAdd driverInfo buttonMap self = self.
Proof. intros Hsize. unfold OnAdd. now rewrite bool_decide_eq_true_2. Qed.

Lemma observe_all_snoc (observations : list (DevicePtr * ButtonMap))
    (observation : DevicePtr * ButtonMap) (self : CControllerTransformer) :
  observe_all (observations ++ [observation]) self
  = OnAdd observation.1 observation.2 (observe_all observations self).
Proof. unfold observe_all. now rewrite fold_left_app. Qed.

(** After a run on distinct devices the first 201 of them are the
    observed ones. *)
Lemma observe_all_observed (observations : list (DevicePtr * ButtonMap)) :
  NoDup observations.*1 ->
  m_observedDevices (observe_all observations new_CControllerTransformer)
  = list_to_set (take 201 observations.*1).
Proof.
  induction observations as [| [driverInfo buttonMap] observations IH] using rev_ind;
    intros Hnd; [reflexivity |].
  rewrite fmap_app in Hnd |- *. simpl in Hnd |- *.
  apply NoDup_app in Hnd as (Hnd & Hfresh & _).
  rewrite observe_all_snoc, OnAdd_observed, (IH Hnd). simpl.
  assert (Hsize : size (list_to_set (C := gset positive) (take 201 observations.*1))
                  = length (take 201 observations.*1)).
  { apply size_list_to_set. now apply NoDup_take. }
  rewrite Hsize, length_take. case_bool_decide as Hfull.
  - rewrite take_app_le by lia. reflexivity.
  - rewrite (take_ge observations.*1) by lia. rewrite take_ge by (rewrite length_app; simpl; lia).
    rewrite list_to_set_app_L. simpl. rewrite union_empty_r_L. apply union_comm_L.
Qed.

(** C2, in the form that holds: from a new transformer, once 201
    distinct devices have been observed, [OnAdd] changes nothing: neither
    the translation table nor the set of observed devices. *)
Theorem OnAdd_past_ceiling (observations : list (DevicePtr * ButtonMap))
    (driverInfo : DevicePtr) (buttonMap : ButtonMap) :
  NoDup observations.*1 -> (201 <= length observations)%nat ->
  OnAdd driverInfo buttonMap (observe_all observations new_CControllerTransformer)
  = observe_all observations new_CControllerTransformer.
Proof.
  intros Hnd Hlength. apply OnAdd_sanity_check.
  rewrite (observe_all_observed observations Hnd).
  rewrite size_list_to_set by now apply NoDup_take.
  rewrite length_take, length_fmap. lia.
Qed.

End TransformerFacts.

Lemma OnAdd_past_ceiling_witness :
  OnAdd (H := by_from_then_to) 202 sample_buttonMap
        (observe_all (H := by_from_then_to) (sample_observations 201)
                     new_CControllerTransformer)
  = observe_all (H := by_from_then_to) (sample_observations 201) new_CControllerTransformer.
Proof.
  apply (OnAdd_past_ceiling (H := by_from_then_to) (sample_observations 201) 202
                            sample_buttonMap).
  - apply (bool_decide_unpack _). vm_compute. exact I.
  - apply Nat.leb_le. vm_compute. reflexivity.
Defined.

(** C2 does not hold as the spec words it: after 200 observed devices
    the device 201 is still observed; it joins the set and its
    translations are counted. *)
Lemma OnAdd_201st_device_observed :
  let self := observe_all (H := by_from_then_to) (sample_observations 200)
                          new_CControllerTransformer in
  let self' := OnAdd (H := by_from_then_to) 201 sample_buttonMap self in
  size (m_observedDevices self) = 200%nat
  /\ (201%positive ∈ m_observedDevices self') 
  /\ size (m_observedDevices self') = 201%nat
  /\ m_controllerMap self !! ("A", "B")
     = Some [([{| fromFeature := "f1"; toFeature := "g1" |}], 200%N)]
  /\ m_controllerMap self' !! ("A", "B")
     = Some [([{| fromFeature := "f1"; toFeature := "g1" |}], 201%N)].
Proof.
  repeat split; vm_compute; reflexivity.
Qed.

(** ** The controller transformer: the state after TransformFeatures *)

(** C5 does not hold as the spec words it: a query for a pair that has
    no bucket gives the pair an empty bucket. *)
Lemma TransformFeatures_adds_bucket :
  let self := (TransformFeatures "a" "b" [] [] new_CControllerTransformer).1 in
  m_controllerMap new_CControllerTransformer !! ("a", "b") = None
  /\ m_controllerMap self !! ("a", "b") = Some []
  /\ self <> new_CControllerTransformer.
Proof.
  repeat split. differ_at (fun self => m_controllerMap self !! ("a", "b")).
Qed.

Lemma TransformFeatures_observed (fromController toController : string)
    (features transformedFeatures : FeatureVector) (self : CControllerTransformer) :
  m_observedDevices (TransformFeatures fromController toController features
                                       transformedFeatures self).1
  = m_observedDevices self.
Proof. unfold TransformFeatures. now destruct (best_feature_map _). Qed.

(** [operator[]] shows the same bucket content before and after. *)
Lemma TransformFeatures_buckets (fromController toController : string)
    (features transformedFeatures : FeatureVector) (self : CControllerTransformer)
    (other : ControllerTranslation) :
  default [] (m_controllerMap (TransformFeatures fromController toController features
                                                 transformedFeatures self).1 !! other)
  = default [] (m_controllerMap self !! other).
Proof.
  unfold TransformFeatures. destruct (best_feature_map _); simpl.
  all: destruct (decide (needle fromController toController = other)) as [<- | Hne];
    [rewrite lookup_insert_eq | rewrite lookup_insert_ne by assumption]; reflexivity.
Qed.

(** C5, in the form that holds: TransformFeatures leaves the set of
    observed devices and the content of every bucket as they are.  If the
    canonical pair has a bucket the transformer is unchanged; if it has
    none, the pair gets an empty bucket and nothing is appended to the
    result. *)
Theorem TransformFeatures_state (fromController toController : string)
    (features transformedFeatures : FeatureVector) (self : CControllerTransformer) :
  let result :=
    TransformFeatures fromController toController features transformedFeatures self in
  let key := needle fromController toController in
  m_observedDevices result.1 = m_observedDevices self
  /\ (forall other,
         default [] (m_controllerMap result.1 !! other)
         = default [] (m_controllerMap self !! other))
  /\ (is_Some (m_controllerMap self !! key) -> result.1 = self)
  /\ (m_controllerMap self !! key = None ->
      m_controllerMap result.1 = <[key := []]> (m_controllerMap self)
      /\ result.2 = transformedFeatures).
Proof.
  intros result key.
  split; [apply TransformFeatures_observed |].
  split; [intros other; apply TransformFeatures_buckets |].
  unfold result, TransformFeatures. fold key. split.
  - intros [bucket Hbucket]. rewrite Hbucket. simpl.
    rewrite insert_id by assumption. destruct self. now destruct (best_feature_map _).
  - intros Hnone. rewrite Hnone. now split.
Qed.

(** ** The controller transformer: counts *)

Section CountFacts.

Context `{TranslationLess}.

Lemma counts_within_mono (n m : N) (featureMaps : FeatureMaps) :
  (n <= m)%N -> counts_within n featureMaps -> counts_within m featureMaps.
Proof.
  intros Hle Hn. eapply Forall_impl; [exact Hn |]. simpl. intros featureMap Hcount. lia.
Qed.

Lemma increment_small (count : N) : (count + 1 < 2 ^ 32)%N -> increment count = (count + 1)%N.
Proof. intros Hsmall. unfold increment. now apply N.mod_small. Qed.

Lemma map_increment_counts (features : FeatureMap) (n : N) (featureMaps : FeatureMaps) :
  (n + 1 < 2 ^ 32)%N -> counts_within n featureMaps ->
  counts_within (n + 1) (map_increment features featureMaps).
Proof.
  intros Hsmall. induction 1 as [| [key count] rest Hcount Hrest IH]; simpl; [constructor |].
  simpl in Hcount.
  destruct (FeatureMap_lt key features).
  - constructor; [simpl; lia | exact IH].
  - destruct (FeatureMap_lt features key).
    + constructor; [simpl; lia |]. now apply counts_within_mono with n; [lia |].
    + constructor.
      * simpl. rewrite increment_small by lia. lia.
      * now apply counts_within_mono with n; [lia |].
Qed.

Lemma map_insert_counts (features : FeatureMap) (n : N) (featureMaps : FeatureMaps) :
  counts_within n featureMaps -> counts_within (n + 1) (map_insert features 1 featureMaps).
Proof.
  induction 1 as [| [key count] rest Hcount Hrest IH]; simpl.
  - constructor; [simpl; lia | constructor].
  - simpl in Hcount. destruct (FeatureMap_lt features key).
    + constructor; [simpl; lia |]. constructor; [simpl; lia |].
      now apply counts_within_mono with n; [lia |].
    + destruct (FeatureMap_lt key features).
      * constructor; [simpl; lia | exact IH].
      * constructor; [simpl; lia |]. now apply counts_within_mono with n; [lia |].
Qed.

(** [AddControllerMap] touches one bucket only... *)
Lemma AddControllerMap_other (controllerFrom : string) (featuresFrom : FeatureVector)
    (controllerTo : string) (featuresTo : FeatureVector) (self : CControllerTransformer)
    (key : ControllerTranslation) :
  key <> (controllerFrom, controllerTo) ->
  m_controllerMap (AddControllerMap controllerFrom featuresFrom
                                    controllerTo featuresTo self).1 !! key
  = m_controllerMap self !! key.
Proof.
  intros Hkey. unfold AddControllerMap. destruct (translations _ _); [reflexivity |].
  simpl. now apply lookup_insert_ne.
Qed.

(** ...and raises the counts of that bucket by one at most. *)
Lemma AddControllerMap_counts (controllerFrom : string) (featuresFrom : FeatureVector)
    (controllerTo : string) (featuresTo : FeatureVector) (self : CControllerTransformer)
    (n : N) :
  (n + 1 < 2 ^ 32)%N ->
  (forall featureMaps,
      m_controllerMap self !! (controllerFrom, controllerTo) = Some featureMaps ->
      counts_within n featureMaps) ->
  forall featureMaps,
    m_controllerMap (AddControllerMap controllerFrom featuresFrom
                                      controllerTo featuresTo self).1
      !! (controllerFrom, controllerTo) = Some featureMaps ->
    counts_within (n + 1) featureMaps.
Proof.
  intros Hsmall Hbefore featureMaps. unfold AddControllerMap.
  destruct (translations featuresFrom featuresTo) as [| entry features] eqn:Htranslations.
  - simpl. intros Hlookup. apply counts_within_mono with n; [lia | now apply Hbefore].
  - simpl. rewrite lookup_insert_eq. intros [= <-].
    assert (Hold : counts_within n
                     (default [] (m_controllerMap self !! (controllerFrom, controllerTo)))).
    { destruct (m_controllerMap self !! (controllerFrom, controllerTo)) eqn:Hlookup; simpl.
      - now apply Hbefore.
      - constructor. }
    unfold count_features. destruct (map_find _ _).
    + now apply map_increment_counts.
    + now apply map_insert_counts.
Qed.

(** The bucket of the call after [AddControllerMap]. *)
Lemma AddControllerMap_same (controllerFrom : string) (featuresFrom : FeatureVector)
    (controllerTo : string) (featuresTo : FeatureVector) (self : CControllerTransformer) :
  m_controllerMap (AddControllerMap controllerFrom featuresFrom
                                    controllerTo featuresTo self).1
    !! (controllerFrom, controllerTo)
  = match translations featuresFrom featuresTo with
    | [] => m_controllerMap self !! (controllerFrom, controllerTo)
    | _ :: _ =>
        Some (count_features (translations featuresFrom featuresTo)
                (default [] (m_controllerMap self !! (controllerFrom, controllerTo))))
    end.
Proof.
  unfold AddControllerMap. destruct (translations featuresFrom featuresTo); [reflexivity |].
  simpl. apply lookup_insert_eq.
Qed.

(** The two loops of [OnAdd] make the calls of [calls], in that order. *)
Lemma fold_left_map {S A B} (step : S -> B -> S) (h : A -> B) (l : list A) : forall s,
  fold_left step (List.map h l) s = fold_left (fun s x => step s (h x)) l s.
Proof. induction l as [| x l IH]; intros s; simpl; [reflexivity | apply IH]. Qed.

Lemma fold_left_calls {S} (step : S -> (string * FeatureVector) -> (string * FeatureVector) -> S)
    (all outer : list (string * FeatureVector)) : forall s,
  fold_left (fun s itTo =>
               fold_left (fun s itFrom => step s itFrom itTo) (from_entries all itTo.1) s)
            outer s
  = fold_left (fun s call => step s call.1 call.2)
      (flat_map (fun itTo => List.map (fun itFrom => (itFrom, itTo)) (from_entries all itTo.1))
                outer) s.
Proof.
  induction outer as [| itTo outer IH]; intros s; simpl; [reflexivity |].
  now rewrite fold_left_app, fold_left_map, IH.
Qed.

Lemma entries_Permutation (buttonMap : ButtonMap) :
  Permutation (map_to_list buttonMap) (entries buttonMap).
Proof. apply sort_by_Permutation. Qed.

(** [entries] is the iteration order of the [std::map]. *)
Lemma entries_sorted (buttonMap : ButtonMap) :
  StronglySorted (key_le fst) (entries buttonMap).
Proof. apply sort_by_sorted. Qed.

Lemma entries_NoDup (buttonMap : ButtonMap) : NoDup (entries buttonMap).*1.
Proof. rewrite <- entries_Permutation. apply NoDup_fst_map_to_list. Qed.

Lemma from_entries_prefix (all : list (string * FeatureVector)) (to : string) :
  exists rest, all = from_entries all to ++ rest.
Proof.
  induction all as [| itFrom all [rest IH]]; simpl; [now exists [] |].
  destruct (String.ltb itFrom.1 to).
  - exists rest. simpl. now rewrite <- IH.
  - now exists (itFrom :: all).
Qed.

Lemma from_entries_NoDup (all : list (string * FeatureVector)) (to : string) :
  NoDup all.*1 -> NoDup (from_entries all to).*1.
Proof.
  intros Hnd. destruct (from_entries_prefix all to) as [rest Heq].
  rewrite Heq, fmap_app in Hnd. now apply NoDup_app in Hnd as (? & _ & _).
Qed.

(** No two calls of one [OnAdd] count under the same key. *)
Lemma calls_NoDup_outer (all outer : list (string * FeatureVector)) :
  NoDup all.*1 -> NoDup outer.*1 ->
  NoDup (List.map call_key
           (flat_map (fun itTo => List.map (fun itFrom => (itFrom, itTo))
                                           (from_entries all itTo.1)) outer)).
Proof.
  intros Hall. induction outer as [| itTo outer IH]; intros Houter; simpl; [constructor |].
  apply NoDup_cons in Houter as [Hfresh Houter].
  rewrite List.map_app. apply NoDup_app. split; [| split].
  - rewrite List.map_map. unfold call_key. simpl.
    pose proof (from_entries_NoDup all itTo.1 Hall) as Hfrom.
    induction (from_entries all itTo.1) as [| itFrom l IHl]; simpl; [constructor |].
    simpl in Hfrom. apply NoDup_cons in Hfrom as [Hnotin Hfrom].
    apply NoDup_cons. split; [| now apply IHl].
    intros Hin. apply Hnotin. apply list_elem_of_In, in_map_iff in Hin as (e & [= Heq] & He).
    apply list_elem_of_fmap. exists e. split; [now symmetry | now apply list_elem_of_In].
  - intros key Hfirst Hlater. apply Hfresh.
    apply list_elem_of_In, in_map_iff in Hfirst as (call & <- & Hcall).
    apply in_map_iff in Hcall as (itFrom & <- & _).
    apply list_elem_of_In, in_map_iff in Hlater as (call & Hkey & Hcall).
    apply in_flat_map in Hcall as (itTo' & HitTo' & Hcall).
    apply in_map_iff in Hcall as (itFrom' & <- & _).
    unfold call_key in Hkey. simpl in Hkey. injection Hkey as _ Hto.
    apply list_elem_of_fmap. exists itTo'. split; [now symmetry | now apply list_elem_of_In].
  - now apply IH.
Qed.

Lemma calls_NoDup (buttonMap : ButtonMap) :
  NoDup (List.map call_key (calls (entries buttonMap))).
Proof. apply calls_NoDup_outer; apply entries_NoDup. Qed.

(** [OnAdd] as the run of its calls. *)
Lemma OnAdd_calls (driverInfo : DevicePtr) (buttonMap : ButtonMap)
    (self : CControllerTransformer) :
  (size (m_observedDevices self) <= 200)%nat ->
  driverInfo ∉ m_observedDevices self ->
  OnAdd driverInfo buttonMap self
  = fold_left add_call (calls (entries buttonMap))
      {| m_controllerMap := m_controllerMap self;
         m_observedDevices := {[driverInfo]} ∪ m_observedDevices self |}.
Proof.
  intros Hsize Hfresh. unfold OnAdd.
  rewrite bool_decide_eq_false_2 by lia.
  rewrite bool_decide_eq_false_2 by assumption.
  apply (fold_left_calls
           (fun self itFrom itTo =>
              (AddControllerMap itFrom.1 itFrom.2 itTo.1 itTo.2 self).1)).
Qed.

Lemma add_call_other (self : CControllerTransformer)
    (call : (string * FeatureVector) * (string * FeatureVector))
    (key : ControllerTranslation) :
  key <> call_key call ->
  m_controllerMap (add_call self call) !! key = m_controllerMap self !! key.
Proof. intros Hkey. unfold add_call. now apply AddControllerMap_other. Qed.

Lemma add_call_same (self : CControllerTransformer)
    (call : (string * FeatureVector) * (string * FeatureVector)) :
  m_controllerMap (add_call self call) !! call_key call
  = match translations call.1.2 call.2.2 with
    | [] => m_controllerMap self !! call_key call
    | _ :: _ =>
        Some (count_features (translations call.1.2 call.2.2)
                (default [] (m_controllerMap self !! call_key call)))
    end.
Proof. unfold add_call, call_key. apply AddControllerMap_same. Qed.

(** A key that no call counts under keeps its bucket... *)
Lemma fold_add_call_other (key : ControllerTranslation)
    (todo : list ((string * FeatureVector) * (string * FeatureVector))) :
  key ∉ List.map call_key todo ->
  forall self,
    m_controllerMap (fold_left add_call todo self) !! key = m_controllerMap self !! key.
Proof.
  induction todo as [| call todo IH]; intros Hkey self; simpl; [reflexivity |].
  simpl in Hkey. apply not_elem_of_cons in Hkey as [Hne Hkey].
  rewrite (IH Hkey). now apply add_call_other.
Qed.

(** ...and the key of a call has the bucket that this call alone gives. *)
Lemma fold_add_call_same (call : (string * FeatureVector) * (string * FeatureVector))
    (todo : list ((string * FeatureVector) * (string * FeatureVector))) :
  NoDup (List.map call_key todo) -> In call todo ->
  forall self,
    m_controllerMap (fold_left add_call todo self) !! call_key call
    = m_controllerMap (add_call self call) !! call_key call.
Proof.
  induction todo as [| first todo IH]; intros Hnd Hin self; [destruct Hin |].
  simpl in Hnd |- *. apply NoDup_cons in Hnd as [Hfresh Hnd].
  destruct Hin as [-> | Hin].
  - now apply fold_add_call_other.
  - assert (Hne : call_key call <> call_key first).
    { intros Heq. apply Hfresh. rewrite <- Heq.
      apply list_elem_of_In. now apply in_map. }
    rewrite (IH Hnd Hin), (add_call_same (add_call self first)), (add_call_same self).
    now rewrite (add_call_other self first (call_key call) Hne).
Qed.

(** Along the calls of one [OnAdd], a bucket still to be visited has its
    counts within [n], and every bucket has them within [n + 1]. *)
Lemma calls_counts (n : N) (todo : list ((string * FeatureVector) * (string * FeatureVector))) :
  (n + 1 < 2 ^ 32)%N -> NoDup (List.map call_key todo) ->
  forall self,
    (forall key featureMaps,
        m_controllerMap self !! key = Some featureMaps ->
        counts_within (if bool_decide (key ∈ List.map call_key todo) then n else n + 1)
                      featureMaps) ->
    forall key featureMaps,
      m_controllerMap (fold_left add_call todo self) !! key = Some featureMaps ->
      counts_within (n + 1) featureMaps.
Proof.
  intros Hsmall. induction todo as [| call todo IH]; intros Hnd self Hself key featureMaps.
  - simpl. intros Hlookup. now apply (Hself key).
  - simpl. apply NoDup_cons in Hnd as [Hfresh Hnd]. apply (IH Hnd). clear key featureMaps.
    intros key featureMaps Hlookup.
    destruct (decide (key = call_key call)) as [-> | Hne].
    + rewrite bool_decide_eq_false_2 by assumption.
      revert Hlookup. apply AddControllerMap_counts; [assumption |].
      intros before Hbefore. specialize (Hself _ _ Hbefore).
      rewrite bool_decide_eq_true_2 in Hself by (simpl; left). exact Hself.
    + rewrite add_call_other in Hlookup by exact Hne.
      specialize (Hself _ _ Hlookup). simpl in Hself.
      rewrite (bool_decide_ext _ (key ∈ List.map call_key todo)) in Hself; [exact Hself |].
      rewrite elem_of_cons. split; [intros [? | ?]; [congruence | assumption] | now right].
Qed.

Lemma OnAdd_counts_bounded (driverInfo : DevicePtr) (buttonMap : ButtonMap)
    (self : CControllerTransformer) :
  counts_bounded self -> counts_bounded (OnAdd driverInfo buttonMap self).
Proof.
  intros [Hsize Hcounts]. unfold counts_bounded.
  rewrite OnAdd_observed. unfold OnAdd.
  case_bool_decide as Hfull; [now split |].
  case_bool_decide as Hdevice; [| clear Hsize].
  { rewrite (subseteq_union_1_L {[driverInfo]}) by now apply singleton_subseteq_l.
    now split. }
  assert (Hgrown : size ({[driverInfo]} ∪ m_observedDevices self)
                   = S (size (m_observedDevices self))).
  { rewrite size_union by now apply disjoint_singleton_l. now rewrite size_singleton. }
  rewrite Hgrown. split; [lia |].
  rewrite (fold_left_calls
             (fun self itFrom itTo =>
                (AddControllerMap itFrom.1 itFrom.2 itTo.1 itTo.2 self).1)).
  change (fold_left _ _ ?start) with (fold_left add_call (calls (entries buttonMap)) start).
  replace (N.of_nat (S (size (m_observedDevices self))))
    with (N.of_nat (size (m_observedDevices self)) + 1)%N by lia.
  apply calls_counts; [lia | apply calls_NoDup |].
  simpl. intros key featureMaps Hlookup. specialize (Hcounts _ _ Hlookup).
  case_bool_decide; [exact Hcounts |]. now apply counts_within_mono with
    (N.of_nat (size (m_observedDevices self))); [lia |].
Qed.

Lemma TransformFeatures_counts_bounded (fromController toController : string)
    (features transformedFeatures : FeatureVector) (self : CControllerTransformer) :
  counts_bounded self ->
  counts_bounded (TransformFeatures fromController toController features
                                    transformedFeatures self).1.
Proof.
  intros [Hsize Hcounts].
  unfold counts_bounded. rewrite TransformFeatures_observed. split; [exact Hsize |].
  intros key featureMaps Hlookup.
  pose proof (TransformFeatures_buckets fromController toController features
                transformedFeatures self key) as Hbuckets.
  rewrite Hlookup in Hbuckets. simpl in Hbuckets. subst featureMaps.
  destruct (m_controllerMap self !! key) eqn:Hbefore; simpl.
  - now apply (Hcounts key).
  - constructor.
Qed.

(** Every count of a reachable transformer is positive. *)
Lemma reachable_counts_bounded (self : CControllerTransformer) :
  reachable self -> counts_bounded self.
Proof.
  induction 1 as [| driverInfo buttonMap self _ IH
                  | fromController toController features transformedFeatures self _ IH].
  - split.
    + change (size (∅ : gset positive) <= 201)%nat. rewrite size_empty. lia.
    + intros key featureMaps Hlookup. simpl in Hlookup.
      now rewrite lookup_empty in Hlookup.
  - now apply OnAdd_counts_bounded.
  - now apply TransformFeatures_counts_bounded.
Qed.

Lemma reachable_observe_all (observations : list (DevicePtr * ButtonMap)) : forall self,
  reachable self -> reachable (observe_all observations self).
Proof.
  unfold observe_all. induction observations as [| observation observations IH];
    intros self Hself; simpl; [exact Hself |].
  apply IH. now constructor.
Qed.

End CountFacts.

(** ** The controller transformer: the most frequent translation set *)

(** The loop over the bucket either keeps its state, when no count
    exceeds [maxCount], or ends on the first entry whose count is
    greatest. *)
Lemma best_step_fold (featureMaps : FeatureMaps) :
  forall maxCount best,
    (Forall (fun featureMap => (featureMap.2 <= maxCount)%N) featureMaps
     /\ fold_left best_step featureMaps (maxCount, best) = (maxCount, best))
    \/ (exists before bestFeatureMap count after,
           featureMaps = before ++ (bestFeatureMap, count) :: after
           /\ (maxCount < count)%N
           /\ Forall (fun featureMap => (featureMap.2 < count)%N) before
           /\ Forall (fun featureMap => (featureMap.2 <= count)%N) after
           /\ fold_left best_step featureMaps (maxCount, best)
              = (count, Some bestFeatureMap)).
Proof.
  induction featureMaps as [| [features count] rest IH]; intros maxCount best; simpl.
  - left. now split.
  - change (best_step (maxCount, best) (features, count))
      with (if (maxCount <? count)%N then (count, Some features) else (maxCount, best)).
    destruct (N.ltb_spec maxCount count) as [Hlt | Hge].
    + right. destruct (IH count (Some features))
        as [[Hrest Heq] | (before & winner & count' & after & -> & Hcount & Hbefore & Hafter & Heq)].
      * exists [], features, count, rest.
        split; [reflexivity |]. split; [exact Hlt |]. split; [constructor |].
        split; [exact Hrest | exact Heq].
      * exists ((features, count) :: before), winner, count', after.
        split; [reflexivity |]. split; [lia |].
        split; [constructor; [simpl; lia | exact Hbefore] |].
        split; [exact Hafter | exact Heq].
    + destruct (IH maxCount best)
        as [[Hrest Heq] | (before & winner & count' & after & -> & Hcount & Hbefore & Hafter & Heq)].
      * left. split; [constructor; [simpl; lia | exact Hrest] | exact Heq].
      * right. exists ((features, count) :: before), winner, count', after.
        split; [reflexivity |]. split; [exact Hcount |].
        split; [constructor; [simpl; lia | exact Hbefore] |].
        split; [exact Hafter | exact Heq].
Qed.

Lemma best_feature_map_first_greatest (featureMaps : FeatureMaps) :
  featureMaps <> [] ->
  Forall (fun featureMap => (0 < featureMap.2)%N) featureMaps ->
  exists before bestFeatureMap count after,
    featureMaps = before ++ (bestFeatureMap, count) :: after
    /\ Forall (fun featureMap => (featureMap.2 < count)%N) before
    /\ Forall (fun featureMap => (featureMap.2 <= count)%N) after
    /\ best_feature_map featureMaps = Some bestFeatureMap.
Proof.
  intros Hne Hpositive. unfold best_feature_map.
  destruct (best_step_fold featureMaps 0%N None)
    as [[Hall _] | (before & winner & count & after & Heq & _ & Hbefore & Hafter & Hfold)].
  - destruct featureMaps as [| featureMap rest]; [contradiction |].
    apply Forall_cons in Hall as [Hle _]. apply Forall_cons in Hpositive as [Hlt _]. lia.
  - exists before, winner, count, after. rewrite Hfold. now repeat split.
Qed.

(** The first element of a list that satisfies a test, and what comes
    before it. *)
Lemma find_first {A : Type} (test : A -> bool) (l : list A) (x : A) :
  List.find test l = Some x ->
  exists earlier later,
    l = earlier ++ x :: later /\ test x = true
    /\ forall y, In y earlier -> test y = false.
Proof.
  induction l as [| first rest IH]; simpl; [discriminate |].
  destruct (test first) eqn:Hfirst.
  - intros [= <-]. exists [], rest. split; [reflexivity |]. split; [exact Hfirst |].
    intros y [].
  - intros Hfind. destruct (IH Hfind) as (earlier & later & -> & Hx & Hearlier).
    exists (first :: earlier), later. split; [reflexivity |]. split; [exact Hx |].
    intros y [<- | Hy]; [exact Hfirst | now apply Hearlier].
Qed.

(** The loop over the best translation set appends what the
    specification asks for. *)
Lemma transform_pair_applies (swap : bool) (features : FeatureVector)
    (featureMap : FeatureMap) :
  applies swap features featureMap (flat_map (transform_pair swap features) featureMap).
Proof.
  induction featureMap as [| translation rest IH]; simpl; [constructor |].
  unfold transform_pair at 1.
  destruct (List.find _ features) as [itFrom |] eqn:Hfind; simpl.
  - apply find_first in Hfind as (earlier & later & Hsplit & Hname & Hearlier).
    apply String.eqb_eq in Hname.
    apply (applies_renamed swap features translation rest _ earlier itFrom later);
      [exact Hsplit | exact Hname | | exact IH].
    intros other Hother. apply String.eqb_neq. now apply Hearlier.
  - apply applies_skipped; [| exact IH].
    intros other Hother. apply String.eqb_neq.
    exact (find_none _ _ Hfind other Hother).
Qed.

Lemma first_unique {A : Type} (P : A -> Prop) (earlier earlier' later later' : list A)
    (x x' : A) :
  earlier ++ x :: later = earlier' ++ x' :: later' ->
  P x -> P x' ->
  (forall y, In y earlier -> ~ P y) -> (forall y, In y earlier' -> ~ P y) ->
  x = x'.
Proof.
  revert earlier'. induction earlier as [| first rest IH]; intros [| first' rest']; simpl.
  - now intros [= -> _].
  - intros [= -> _] Hx _ _ Hearlier'. exfalso. apply (Hearlier' first'); [now left | exact Hx].
  - intros [= <- _] _ Hx' Hearlier _. exfalso. apply (Hearlier first); [now left | exact Hx'].
  - intros [= <- Hrest] Hx Hx' Hearlier Hearlier'.
    apply (IH rest' Hrest Hx Hx'); intros y Hy; [apply Hearlier | apply Hearlier']; now right.
Qed.

(** What is owed for a translation set is one list of features. *)
Lemma applies_unique (swap : bool) (features : FeatureVector) (featureMap : FeatureMap)
    (appended appended' : FeatureVector) :
  applies swap features featureMap appended ->
  applies swap features featureMap appended' ->
  appended = appended'.
Proof.
  intros Happlies. revert appended'.
  induction Happlies
    as [| translation rest appended earlier feature later Hsplit Hname Hearlier _ IH
        | translation rest appended Hnone _ IH];
    intros appended' Happlies';
    inversion Happlies'
      as [| ? ? tail earlier' feature' later' Hsplit' Hname' Hearlier' Hrest'
          | ? ? tail Hnone' Hrest']; subst.
  - reflexivity.
  - f_equal; [| now apply IH]. f_equal.
    apply (first_unique
             (fun other => JoystickFeature.Name other
                = (if swap then toFeature translation else fromFeature translation))
             earlier earlier' later later' feature feature' Hsplit');
      assumption.
  - exfalso. apply (Hnone' feature); [apply in_elt | exact Hname].
  - exfalso. apply (Hnone feature'); [apply in_elt | exact Hname'].
  - now apply IH.
Qed.

(** C4: in a reachable transformer, when the bucket of the canonical pair
    is not empty, [TransformFeatures] applies the translation set of the
    first entry of the bucket, in iteration order, whose count is
    greatest: the entries before it have smaller counts, no entry after
    it has a greater one, and the output grows by what this set owes for
    the input features: for each of its translations in turn, read in
    reverse when the source controller is not less than the target, the
    first input feature of the from-name, under the to-name. *)
Theorem TransformFeatures_most_frequent `{TranslationLess}
    (fromController toController : string) (features transformedFeatures : FeatureVector)
    (self : CControllerTransformer) (featureMaps : FeatureMaps) :
  reachable self ->
  m_controllerMap self !! needle fromController toController = Some featureMaps ->
  featureMaps <> [] ->
  exists before bestFeatureMap count after appended,
    featureMaps = before ++ (bestFeatureMap, count) :: after
    /\ Forall (fun featureMap => (featureMap.2 < count)%N) before
    /\ Forall (fun featureMap => (featureMap.2 <= count)%N) after
    /\ applies (negb (String.ltb fromController toController)) features
               bestFeatureMap appended
    /\ (TransformFeatures fromController toController features transformedFeatures self).2
       = transformedFeatures ++ appended.
Proof.
  intros Hreachable Hlookup Hne.
  destruct (reachable_counts_bounded self Hreachable) as [_ Hcounts].
  specialize (Hcounts _ _ Hlookup).
  destruct (best_feature_map_first_greatest featureMaps Hne)
    as (before & winner & count & after & Heq & Hbefore & Hafter & Hbest).
  { eapply Forall_impl; [exact Hcounts |]. simpl. intros featureMap Hcount. lia. }
  exists before, winner, count, after,
    (flat_map (transform_pair (bSwap fromController toController) features) winner).
  split; [exact Heq |]. split; [exact Hbefore |]. split; [exact Hafter |].
  split; [apply transform_pair_applies |].
  unfold TransformFeatures. rewrite Hlookup. simpl. now rewrite Hbest.
Qed.

(** With the counts 3 and 5 the set counted five times is the one
    applied: "f2" comes out as "g2", and "f1", which only the other set
    translates, does not come out. *)
Lemma TransformFeatures_most_frequent_witness :
  let self := observe_all (H := by_from_then_to) mixed_observations
                          new_CControllerTransformer in
  m_controllerMap self !! needle "A" "B"
  = Some [([{| fromFeature := "f1"; toFeature := "g1" |}], 3%N);
          ([{| fromFeature := "f2"; toFeature := "g2" |}], 5%N)]
  /\ (TransformFeatures "A" "B" [scalar "f1" 8; scalar "f2" 9] [] self).2
     = [scalar "g2" 9].
Proof.
  intros self.
  assert (Hlookup : m_controllerMap self !! needle "A" "B"
                    = Some [([{| fromFeature := "f1"; toFeature := "g1" |}], 3%N);
                            ([{| fromFeature := "f2"; toFeature := "g2" |}], 5%N)])
    by (vm_compute; reflexivity).
  split; [exact Hlookup |].
  destruct (TransformFeatures_most_frequent (H := by_from_then_to) "A" "B"
              [scalar "f1" 8; scalar "f2" 9] [] self _
              (reachable_observe_all (H := by_from_then_to) mixed_observations _
                 (reachable_new (H := by_from_then_to)))
              Hlookup ltac:(discriminate))
    as (before & bestFeatureMap & count & after & appended
        & Hsplit & Hbefore & Hafter & Happlies & ->).
  simpl. f_equal.
  destruct before as [| first [| second before]]; simpl in Hsplit.
  - injection Hsplit as <- <- <-.
    apply Forall_cons in Hafter as [Hle _]. simpl in Hle. lia.
  - injection Hsplit as _ <- <- <-.
    apply (applies_unique false [scalar "f1" 8; scalar "f2" 9]
             [{| fromFeature := "f2"; toFeature := "g2" |}]); [exact Happlies |].
    apply (applies_renamed false [scalar "f1" 8; scalar "f2" 9]
             {| fromFeature := "f2"; toFeature := "g2" |} [] []
             [scalar "f1" 8] (scalar "f2" 9) []);
      [reflexivity | reflexivity | | constructor].
    intros other [<- | []]. discriminate.
  - injection Hsplit as _ _ Hrest. destruct before; discriminate.
Defined.

(** ** The controller transformer: both directions *)

Section Directions.

Context `{TranslationLess}.

(** Two translations that the order does not tell apart are equal. *)
Hypothesis translation_lt_total :
  forall lhs rhs : FeatureTranslation,
    translation_lt lhs rhs = false -> translation_lt rhs lhs = false -> lhs = rhs.




End Directions.

(** The inner loop of [OnAdd] reaches every entry whose key is less than
    the key of [itTo]. *)
Lemma from_entries_In (all : list (string * FeatureVector)) (to : string)
    (itFrom : string * FeatureVector) :
  StronglySorted (key_le fst) all -> In itFrom all -> String.ltb itFrom.1 to = true ->
  In itFrom (from_entries all to).
Proof.
  induction 1 as [| first rest Hrest IH Hfirst]; intros Hin Hlt; simpl; [destruct Hin |].
  destruct Hin as [-> | Hin]; [rewrite Hlt; now left |].
  assert (Hbefore : String.ltb first.1 to = true).
  { apply leb_ltb_trans with itFrom.1; [| exact Hlt].
    rewrite Forall_forall in Hfirst. now apply Hfirst, list_elem_of_In. }
  rewrite Hbefore. right. now apply IH.
Qed.

Lemma entries_In (buttonMap : ButtonMap) (controllerId : string) (features : FeatureVector) :
  buttonMap !! controllerId = Some features -> In (controllerId, features) (entries buttonMap).
Proof.
  intros Hlookup. eapply Permutation_in; [apply entries_Permutation |].
  now apply list_elem_of_In, elem_of_map_to_list.
Qed.

(** So [OnAdd] calls [AddControllerMap] for every two profiles of the
    button map, the lesser one first. *)
Lemma calls_In (buttonMap : ButtonMap) (A B : string) (featuresA featuresB : FeatureVector) :
  buttonMap !! A = Some featuresA -> buttonMap !! B = Some featuresB ->
  String.ltb A B = true ->
  In ((A, featuresA), (B, featuresB)) (calls (entries buttonMap)).
Proof.
  intros HA HB Hlt. unfold calls. apply in_flat_map.
  exists (B, featuresB). split; [now apply entries_In |].
  apply in_map_iff. exists (A, featuresA). split; [reflexivity |].
  apply from_entries_In; [apply entries_sorted | now apply entries_In | exact Hlt].
Qed.

(** The bucket of two profiles after [OnAdd] is the one that their call
    of [AddControllerMap] gives. *)
Lemma OnAdd_bucket `{TranslationLess} (driverInfo : DevicePtr) (buttonMap : ButtonMap)
    (A B : string) (featuresA featuresB : FeatureVector) (self : CControllerTransformer) :
  (size (m_observedDevices self) <= 200)%nat ->
  driverInfo ∉ m_observedDevices self ->
  buttonMap !! A = Some featuresA -> buttonMap !! B = Some featuresB ->
  String.ltb A B = true ->
  m_controllerMap (OnAdd driverInfo buttonMap self) !! (A, B)
  = match translations featuresA featuresB with
    | [] => m_controllerMap self !! (A, B)
    | _ :: _ =>
        Some (count_features (translations featuresA featuresB)
                (default [] (m_controllerMap self !! (A, B))))
    end.
Proof.
  intros Hsize Hfresh HA HB Hlt. rewrite OnAdd_calls by assumption.
  rewrite (fold_add_call_same ((A, featuresA), (B, featuresB)));
    [| apply calls_NoDup | now apply calls_In].
  rewrite add_call_same. reflexivity.
Qed.





(** ** More about Sanitize *)

Lemma sanitize_primitives_blanked (prior : FeatureVector) (todo : list DriverPrimitive.t) :
  forall done,
    exists slots,
      sanitize_primitives prior done todo = done ++ slots /\ Forall2 blanked slots todo.
Proof.
  induction todo as [| p rest IH]; intros done; simpl.
  - exists []. split; [now rewrite app_nil_r | constructor].
  - match goal with |- context [sanitize_primitives prior (done ++ [?q]) rest] =>
      destruct (IH (done ++ [q])) as (slots & Heq & Hslots); exists (q :: slots)
    end.
    rewrite Heq, <- app_assoc. split; [reflexivity |]. constructor; [| exact Hslots].
    unfold blanked. destruct (DriverPrimitive.is_unknown p); [now left |].
    destruct (found_before prior done p); [now right | now left].
Qed.

Lemma sanitize_features_derived (todo : FeatureVector) : forall prior,
  exists tail, sanitize_features prior todo = prior ++ tail /\ Forall2 derived tail todo.
Proof.
  induction todo as [| f rest IH]; intros prior; simpl.
  - exists []. split; [now rewrite app_nil_r | constructor].
  - destruct (sanitize_primitives_blanked prior (JoystickFeature.Primitives f) [])
      as (slots & Hslots & Hblanked).
    rewrite Hslots. simpl.
    destruct (IH (prior ++ [JoystickFeature.SetPrimitives f slots])) as (tail & Heq & Htail).
    exists (JoystickFeature.SetPrimitives f slots :: tail).
    rewrite Heq, <- app_assoc. split; [reflexivity |].
    constructor; [| exact Htail]. repeat split. exact Hblanked.
Qed.

Lemma filter_Forall2_sublist {A B} (R : A -> B -> Prop) (keep : A -> bool)
    (l : list A) (k : list B) :
  Forall2 R l k -> exists kept, sublist kept k /\ Forall2 R (List.filter keep l) kept.
Proof.
  induction 1 as [| x y l k Hxy _ (kept & Hsub & Hkept)]; simpl.
  - exists []. split; constructor.
  - destruct (keep x).
    + exists (y :: kept). split; [now constructor | now constructor].
    + exists kept. split; [now constructor | exact Hkept].
Qed.

Lemma Forall2_In_l {A B} (R : A -> B -> Prop) (l : list A) (k : list B) (x : A) :
  Forall2 R l k -> In x l -> exists y, In y k /\ R x y.
Proof.
  induction 1 as [| x' y l k Hxy _ IH]; intros Hin; [destruct Hin |].
  destruct Hin as [-> | Hin].
  - exists y. split; [now left | exact Hxy].
  - destruct (IH Hin) as (z & Hz & HR). exists z. split; [now right | exact HR].
Qed.

Lemma derived_valid_In (after before : JoystickFeature.t) (p : DriverPrimitive.t) :
  derived after before -> In p (JoystickFeature.Primitives after) -> valid p = true ->
  In p (JoystickFeature.Primitives before).
Proof.
  intros (_ & _ & Hslots) Hp Hvalid.
  destruct (Forall2_In_l _ _ _ p Hslots Hp) as (q & Hq & [-> | ->]); [exact Hq |].
  discriminate.
Qed.

Lemma In_claimed_inv (features : FeatureVector) (p : DriverPrimitive.t) :
  In p (claimed features) ->
  valid p = true
  /\ exists f, In f features /\ In p (JoystickFeature.Primitives f).
Proof.
  unfold claimed, all_primitives. intros Hp. apply filter_In in Hp as [Hp Hvalid].
  split; [exact Hvalid |]. apply in_concat in Hp as (slots & Hslots & Hp).
  apply in_map_iff in Hslots as (f & <- & Hf). now exists f.
Qed.

(** X1: the survivors of Sanitize are, in order, features of the input:
    each one has the name, the type and the number of slots of the
    feature it comes from, and each of its slots holds what it held before
    or the null primitive. *)
Theorem Sanitize_derived (controllerId : string) (features : FeatureVector) :
  exists kept,
    sublist kept features /\ Forall2 derived (Sanitize controllerId features) kept.
Proof.
  destruct (sanitize_features_derived features []) as (tail & Heq & Htail).
  simpl in Heq. unfold Sanitize. rewrite Heq. now apply filter_Forall2_sublist.
Qed.

(** X2: Sanitize loses no primitive and invents none: the valid primitives
    held after it are those held before it. *)
Theorem Sanitize_same_primitives (controllerId : string) (features : FeatureVector)
    (p : DriverPrimitive.t) :
  In p (claimed (Sanitize controllerId features)) <-> In p (claimed features).
Proof.
  split.
  - intros Hp. apply In_claimed_inv in Hp as (Hvalid & g & Hg & Hp).
    destruct (sanitize_features_derived features []) as (tail & Heq & Htail).
    simpl in Heq. unfold Sanitize in Hg. rewrite Heq in Hg.
    apply filter_In in Hg as [Hg _].
    destruct (Forall2_In_l _ _ _ g Htail Hg) as (f & Hf & Hderived).
    apply In_claimed with f; [exact Hf | | exact Hvalid].
    now apply derived_valid_In with g.
  - intros Hp. unfold Sanitize. rewrite claimed_filter_is_valid.
    now apply (sanitize_features_keeps features []).
Qed.

(** X3: the feature-sets that Sanitize leaves alone are those in which no
    valid primitive occurs twice and every feature has a valid
    primitive. *)
Theorem Sanitize_fixed_iff (controllerId : string) (features : FeatureVector) :
  Sanitize controllerId features = features <-> sanitized features.
Proof.
  split.
  - intros Heq. unfold sanitized. rewrite <- Heq.
    split; [apply Sanitize_NoDup | apply Sanitize_all_valid].
  - intros [Hnd Hvalid]. now apply Sanitize_fixed.
Qed.

Lemma filter_names_sublist (keep : JoystickFeature.t -> bool) (features : FeatureVector) :
  sublist (List.map JoystickFeature.Name (List.filter keep features))
          (List.map JoystickFeature.Name features).
Proof.
  induction features as [| f features IH]; simpl; [constructor |].
  destruct (keep f); simpl; now constructor.
Qed.

(** X4: what Sanitize does to the first features of a feature-set does
    not depend on the features after them. *)
Theorem Sanitize_prefix (controllerId : string) (first second : FeatureVector) :
  exists tail,
    Sanitize controllerId (first ++ second) = Sanitize controllerId first ++ tail
    /\ sublist (List.map JoystickFeature.Name tail) (List.map JoystickFeature.Name second).
Proof.
  destruct (Sanitize_app controllerId first second) as (tail & _ & Hnames & Heq).
  exists (List.filter is_valid tail). split; [exact Heq |].
  rewrite <- Hnames. apply filter_names_sublist.
Qed.

(** X5: first claim wins.  If a feature holds a valid primitive that no
    feature before it holds, the feature survives Sanitize and still holds
    the primitive. *)
Theorem Sanitize_first_holder (controllerId : string) (before after : FeatureVector)
    (f : JoystickFeature.t) (p : DriverPrimitive.t) :
  In p (JoystickFeature.Primitives f) ->
  DriverPrimitive.Type_ p <> JOYSTICK_DRIVER_PRIMITIVE_TYPE_UNKNOWN ->
  (forall h, In h before -> ~ In p (JoystickFeature.Primitives h)) ->
  exists g,
    In g (Sanitize controllerId (before ++ f :: after))
    /\ derived g f /\ In p (JoystickFeature.Primitives g).
Proof.
  intros Hp Hvalid Hfresh. apply valid_true in Hvalid.
  destruct (sanitize_features_derived before []) as (before' & Hbefore & Hderived).
  simpl in Hbefore.
  destruct (sanitize_primitives_blanked before' (JoystickFeature.Primitives f) [])
    as (slots & Hslots & Hblanked). simpl in Hslots.
  set (g := JoystickFeature.SetPrimitives f slots).
  assert (Hpg : In p slots).
  { pose proof (sanitize_primitives_keeps before' (JoystickFeature.Primitives f) [] p) as Hkeep.
    rewrite Hslots in Hkeep. simpl in Hkeep.
    assert (Hin : In p (claimed before' ++ List.filter valid (JoystickFeature.Primitives f))).
    { apply in_app_iff. right. apply filter_In. now split. }
    apply Hkeep, in_app_iff in Hin as [Hin | Hin].
    - exfalso. apply In_claimed_inv in Hin as (_ & h' & Hh' & Hph').
      destruct (Forall2_In_l _ _ _ h' Hderived Hh') as (h & Hh & Hhh').
      apply (Hfresh h Hh). now apply derived_valid_In with h'.
    - now apply filter_In in Hin as [Hin _]. }
  exists g. split; [| split; [now repeat split | exact Hpg]].
  unfold Sanitize. rewrite sanitize_features_app, Hbefore. simpl.
  rewrite Hslots. fold g.
  destruct (sanitize_features_extends after (before' ++ [g])) as (tail & Heq & _).
  rewrite Heq. apply filter_In. split.
  - apply in_app_iff. left. apply in_app_iff. right. now left.
  - unfold is_valid. apply existsb_exists. exists p. split; [exact Hpg | exact Hvalid].
Qed.

Lemma Sanitize_first_holder_witness :
  exists g,
    In g (Sanitize "c" ([scalar "a" 0] ++ scalar "b" 1 :: [scalar "z" 1]))
    /\ derived g (scalar "b" 1) /\ In (button 1) (JoystickFeature.Primitives g).
Proof.
  apply (Sanitize_first_holder "c" [scalar "a" 0] [scalar "z" 1] (scalar "b" 1) (button 1)).
  - now left.
  - discriminate.
  - intros h [<- | []] [Heq | []]. discriminate.
Defined.

(** ** More about the button map store *)

Lemma claimed_Permutation (features features' : FeatureVector) :
  Permutation features features' -> Permutation (claimed features) (claimed features').
Proof.
  induction 1 as [| f l l' _ IH | f g l | l l' l'' _ IH _ IH'].
  - reflexivity.
  - rewrite !claimed_cons. now apply Permutation_app_head.
  - rewrite !claimed_cons. apply Permutation_app_swap_app.
  - now transitivity (claimed l').
Qed.

Lemma sanitized_Permutation (features features' : FeatureVector) :
  Permutation features features' -> sanitized features -> sanitized features'.
Proof.
  intros Hperm [Hnd Hvalid]. split.
  - now rewrite <- (claimed_Permutation _ _ Hperm).
  - now rewrite <- Hperm.
Qed.

Lemma Sanitize_sanitized (controllerId : string) (features : FeatureVector) :
  sanitized (Sanitize controllerId features).
Proof. split; [apply Sanitize_NoDup | apply Sanitize_all_valid]. Qed.

Lemma MapFeatures_sanitized (controllerId : string) (features : FeatureVector)
    (self : CButtonMap) (myFeatures : FeatureVector) :
  m_buttonMap (MapFeatures controllerId features self) !! controllerId = Some myFeatures ->
  sanitized myFeatures.
Proof.
  rewrite MapFeatures_lookup. intros [= <-].
  eapply sanitized_Permutation; [apply sort_by_name_Permutation | apply Sanitize_sanitized].
Qed.

(** X6: the feature-set that MapFeatures stores for the profile keeps the
    invariant of Sanitize, also after the sort: no valid primitive occurs
    twice, every feature has a valid primitive, and a further Sanitize
    changes nothing. *)
Theorem MapFeatures_stores_sanitized (controllerId : string) (features : FeatureVector)
    (self : CButtonMap) :
  exists myFeatures,
    m_buttonMap (MapFeatures controllerId features self) !! controllerId = Some myFeatures
    /\ sanitized myFeatures
    /\ Sanitize controllerId myFeatures = myFeatures.
Proof.
  eexists. split; [apply MapFeatures_lookup |].
  assert (Hsanitized : sanitized
            (sort_by_name
               (Sanitize controllerId
                  (features ++ remove_same_name features
                                 (default [] (m_buttonMap self !! controllerId)))))).
  { eapply sanitized_Permutation; [apply sort_by_name_Permutation | apply Sanitize_sanitized]. }
  split; [exact Hsanitized |]. destruct Hsanitized. now apply Sanitize_fixed.
Qed.

Lemma Sanitize_app_derived (controllerId : string) (first second : FeatureVector) :
  exists tail,
    Sanitize controllerId (first ++ second)
    = Sanitize controllerId first ++ List.filter is_valid tail
    /\ Forall2 derived tail second.
Proof.
  destruct (sanitize_features_derived second (sanitize_features [] first))
    as (tail & Heq & Htail).
  exists tail. split; [| exact Htail].
  unfold Sanitize. now rewrite sanitize_features_app, Heq, List.filter_app.
Qed.

Lemma Sanitize_names (controllerId : string) (features : FeatureVector) (g : JoystickFeature.t) :
  In g (Sanitize controllerId features) ->
  In (JoystickFeature.Name g) (List.map JoystickFeature.Name features).
Proof.
  intros Hg. destruct (sanitize_features_derived features []) as (tail & Heq & Htail).
  simpl in Heq. unfold Sanitize in Hg. rewrite Heq in Hg. apply filter_In in Hg as [Hg _].
  destruct (Forall2_In_l _ _ _ g Htail Hg) as (f & Hf & Hname & _).
  rewrite Hname. now apply in_map.
Qed.

(** X7: MapFeatures replaces by name.  A stored feature that has the name
    of a new feature is one of the new features, as Sanitize leaves them
    on their own; a stored feature of another name comes from an existing
    feature of that name, with some slots possibly blanked. *)
Theorem MapFeatures_replaces_by_name (controllerId : string) (features : FeatureVector)
    (self : CButtonMap) :
  let existing := default [] (m_buttonMap self !! controllerId) in
  let myFeatures :=
    default [] (m_buttonMap (MapFeatures controllerId features self) !! controllerId) in
  forall g,
    In g myFeatures ->
    (In (JoystickFeature.Name g) (List.map JoystickFeature.Name features)
     /\ In g (Sanitize controllerId features))
    \/ (~ In (JoystickFeature.Name g) (List.map JoystickFeature.Name features)
        /\ exists f, In f existing /\ derived g f).
Proof.
  intros existing myFeatures g Hg. unfold myFeatures in Hg.
  rewrite MapFeatures_lookup in Hg. simpl in Hg. fold existing in Hg.
  eapply Permutation_in in Hg; [| symmetry; apply sort_by_name_Permutation].
  destruct (Sanitize_app_derived controllerId features (remove_same_name features existing))
    as (tail & Heq & Htail).
  rewrite Heq in Hg. apply in_app_iff in Hg as [Hg | Hg].
  - left. split; [now apply Sanitize_names with controllerId | exact Hg].
  - right. apply filter_In in Hg as [Hg _].
    destruct (Forall2_In_l _ _ _ g Htail Hg) as (f & Hf & Hderived).
    apply remove_same_name_names in Hf as [Hf Hname].
    destruct Hderived as (Hsame & Hrest). split; [now rewrite Hsame |].
    exists f. split; [exact Hf | now split].
Qed.

Lemma MapFeatures_replaces_by_name_witness :
  let self := loaded {["c" := [scalar "a" 0; scalar "z" 5]]} in
  let existing := default [] (m_buttonMap self !! "c") in
  let g := scalar "a" 1 in
  (In (JoystickFeature.Name g) (List.map JoystickFeature.Name [scalar "a" 1])
   /\ In g (Sanitize "c" [scalar "a" 1]))
  \/ (~ In (JoystickFeature.Name g) (List.map JoystickFeature.Name [scalar "a" 1])
      /\ exists f, In f existing /\ derived g f).
Proof.
  refine (MapFeatures_replaces_by_name "c" [scalar "a" 1]
            (loaded {["c" := [scalar "a" 0; scalar "z" 5]]}) (scalar "a" 1) _).
  vm_compute. left. reflexivity.
Defined.

Lemma MapFeatures_backup (controllerId : string) (features : FeatureVector)
    (self : CButtonMap) :
  m_originalButtonMap (MapFeatures controllerId features self)
  = if empty (m_originalButtonMap self) then m_buttonMap self else m_originalButtonMap self.
Proof. reflexivity. Qed.

Lemma map_all_backup (mappings : list (string * FeatureVector)) : forall self,
  m_originalButtonMap self <> ∅ ->
  m_originalButtonMap (map_all mappings self) = m_originalButtonMap self.
Proof.
  unfold map_all. induction mappings as [| mapping mappings IH]; intros self Hbackup; simpl.
  - reflexivity.
  - assert (Hstep : m_originalButtonMap (MapFeatures mapping.1 mapping.2 self)
                    = m_originalButtonMap self).
    { rewrite MapFeatures_backup. apply empty_false in Hbackup. now rewrite Hbackup. }
    rewrite IH; rewrite Hstep; [reflexivity | exact Hbackup].
Qed.

(** X8: RevertButtonMap undoes every MapFeatures since the backup was
    taken.  On a store without backup whose button map is not empty, after
    one or more calls of MapFeatures, for any profiles, RevertButtonMap
    returns true and restores the button map from before the first
    call. *)
Theorem RevertButtonMap_undoes_all (mappings : list (string * FeatureVector))
    (self : CButtonMap) :
  m_originalButtonMap self = ∅ -> m_buttonMap self <> ∅ -> mappings <> [] ->
  let reverted := RevertButtonMap (map_all mappings self) in
  reverted.2 = true /\ m_buttonMap reverted.1 = m_buttonMap self.
Proof.
  intros Hbackup Hmap Hmappings.
  destruct mappings as [| mapping mappings]; [contradiction |].
  assert (Hkept : m_originalButtonMap (map_all (mapping :: mappings) self) = m_buttonMap self).
  { unfold map_all. simpl. fold (map_all mappings (MapFeatures mapping.1 mapping.2 self)).
    assert (Hfirst : m_originalButtonMap (MapFeatures mapping.1 mapping.2 self)
                     = m_buttonMap self).
    { rewrite MapFeatures_backup. apply empty_true in Hbackup. now rewrite Hbackup. }
    rewrite map_all_backup; rewrite Hfirst; [reflexivity | exact Hmap]. }
  intros reverted. subst reverted. unfold RevertButtonMap. rewrite Hkept.
  apply empty_false in Hmap. rewrite Hmap. simpl. now split.
Qed.

Lemma RevertButtonMap_undoes_all_witness :
  let self := loaded {["c" := [scalar "a" 0]]} in
  let reverted :=
    RevertButtonMap (map_all [("c", [scalar "b" 0]); ("d", [scalar "x" 2])] self) in
  reverted.2 = true /\ m_buttonMap reverted.1 = m_buttonMap self.
Proof.
  apply (RevertButtonMap_undoes_all [("c", [scalar "b" 0]); ("d", [scalar "x" 2])]
           (loaded {["c" := [scalar "a" 0]]})).
  - reflexivity.
  - differ_at (fun buttonMap : ButtonMap => buttonMap !! "c").
  - discriminate.
Defined.

(** X9: ResetButtonMap with a successful save.  If the profile has
    features, they are cleared, the other profiles keep theirs, the call
    returns true, and the backup is gone with the save: a following
    RevertButtonMap returns false, also when features mapped for other
    profiles were pending. *)
Theorem ResetButtonMap_saved (now : Z) (controllerId : string) (self : CButtonMap) :
  default [] (m_buttonMap self !! controllerId) <> [] ->
  let reset := ResetButtonMap true now controllerId self in
  reset.2 = true
  /\ m_buttonMap reset.1 = <[controllerId := []]> (m_buttonMap self)
  /\ m_timestamp reset.1 = now
  /\ m_bModified reset.1 = false
  /\ RevertButtonMap reset.1 = (reset.1, false).
Proof.
  intros Hfeatures. unfold ResetButtonMap.
  rewrite bool_decide_eq_false_2 by exact Hfeatures. simpl. repeat split.
Qed.

Lemma ResetButtonMap_saved_witness :
  let self := MapFeatures "d" [scalar "x" 2] (loaded {["c" := [scalar "a" 0]]}) in
  let reset := ResetButtonMap true 7 "c" self in
  reset.2 = true
  /\ m_buttonMap reset.1 = <["c" := []]> (m_buttonMap self)
  /\ m_timestamp reset.1 = 7%Z
  /\ m_bModified reset.1 = false
  /\ RevertButtonMap reset.1 = (reset.1, false).
Proof.
  apply (ResetButtonMap_saved 7 "c"
           (MapFeatures "d" [scalar "x" 2] (loaded {["c" := [scalar "a" 0]]}))).
  vm_compute. discriminate.
Defined.

(** ** The cache of the button map store *)

Lemma int64_wrap_id (z : Z) : int64_range z -> int64_wrap z = z.
Proof.
  unfold int64_range, int64_wrap. intros Hrange.
  rewrite Z.mod_small by lia. lia.
Qed.

Lemma Refresh_fresh (Load : CButtonMap -> CButtonMap * bool) (now : Z) (self : CButtonMap) :
  (now < int64_wrap (m_timestamp self + RESOURCE_LIFETIME_MS))%Z ->
  Refresh Load now self = (self, true).
Proof. intros Hfresh. unfold Refresh. now rewrite bool_decide_eq_false_2 by lia. Qed.

Lemma Refresh_expired (Load : CButtonMap -> CButtonMap * bool) (now : Z) (self : CButtonMap) :
  (int64_wrap (m_timestamp self + RESOURCE_LIFETIME_MS) <= now)%Z ->
  Refresh Load now self
  = if (Load self).2 then
      ({| m_buttonMap :=
            map_imap (fun controllerId features => Some (Sanitize controllerId features))
                     (m_buttonMap (Load self).1);
          m_originalButtonMap := ∅;
          m_timestamp := now;
          m_bModified := m_bModified (Load self).1 |}, true)
    else ((Load self).1, false).
Proof.
  intros Hexpired. unfold Refresh. rewrite bool_decide_eq_true_2 by lia.
  now destruct (Load self) as [loaded_store [|]].
Qed.

(** X10: the lifetime of the cache, for timestamps whose expiry time is
    within [int64_t].  After a refresh that has reloaded the button map
    at time [now], a refresh at a time [early], less than 2000 ms later,
    returns true and leaves the store alone, whatever [Load] would do; a
    refresh at a time [late], 2000 ms later or more, calls [Load]: if the
    load fails, it returns false with the store as the load left it, and
    otherwise it returns true with every feature-set of the loaded button
    map sanitized, no backup, and [late] as the timestamp. *)
Theorem Refresh_lifetime (Load Load' : CButtonMap -> CButtonMap * bool)
    (now early late : Z) (self : CButtonMap) :
  int64_range (m_timestamp self) ->
  (m_timestamp self + 2000 <= now)%Z ->
  int64_range (now + 2000) ->
  (Load self).2 = true ->
  (early < now + 2000)%Z ->
  (now + 2000 <= late)%Z ->
  let refreshed := (Refresh Load now self).1 in
  m_timestamp refreshed = now
  /\ Refresh Load' early refreshed = (refreshed, true)
  /\ Refresh Load' late refreshed
     = if (Load' refreshed).2 then
         ({| m_buttonMap :=
               map_imap (fun controllerId features => Some (Sanitize controllerId features))
                        (m_buttonMap (Load' refreshed).1);
             m_originalButtonMap := ∅;
             m_timestamp := late;
             m_bModified := m_bModified (Load' refreshed).1 |}, true)
       else ((Load' refreshed).1, false).
Proof.
  intros Hstamp_range Hexpired Hrange Hloaded Hearly Hlate refreshed.
  assert (Hstamp : m_timestamp refreshed = now).
  { unfold refreshed. rewrite Refresh_expired.
    - now rewrite Hloaded.
    - rewrite int64_wrap_id; unfold int64_range, RESOURCE_LIFETIME_MS in *; lia. }
  assert (Hexpires : int64_wrap (m_timestamp refreshed + RESOURCE_LIFETIME_MS)
                     = (now + 2000)%Z).
  { rewrite Hstamp. apply int64_wrap_id. exact Hrange. }
  split; [exact Hstamp |]. split.
  - apply Refresh_fresh. rewrite Hexpires. exact Hearly.
  - apply Refresh_expired. rewrite Hexpires. exact Hlate.
Qed.

Lemma Refresh_lifetime_witness :
  let Load := fun self : CButtonMap => (loaded {["c" := [scalar "a" 0]]}, true) in
  let Load' := fun self : CButtonMap =>
                 (loaded {["c" := [scalar "a" 0; scalar "b" 0]]}, true) in
  let refreshed := (Refresh Load 5000 new_CButtonMap).1 in
  m_timestamp refreshed = 5000%Z
  /\ Refresh Load' 6999 refreshed = (refreshed, true)
  /\ Refresh Load' 7000 refreshed
     = ({| m_buttonMap := {["c" := [scalar "a" 0]]};
           m_originalButtonMap := ∅;
           m_timestamp := 7000;
           m_bModified := false |}, true).
Proof.
  intros Load Load' refreshed.
  destruct (Refresh_lifetime Load Load' 5000 6999 7000 new_CButtonMap)
    as (Hstamp & Hearly & Hlate).
  - unfold int64_range. simpl. lia.
  - simpl. lia.
  - unfold int64_range. lia.
  - reflexivity.
  - lia.
  - lia.
  - split; [exact Hstamp |]. split; [exact Hearly |].
    etransitivity; [exact Hlate |]. vm_compute. reflexivity.
Defined.

(** X11: a store with unsaved changes is never reloaded.  After
    MapFeatures, and still after a RevertButtonMap, which leaves the
    modified flag set, GetButtonMap returns the button map in memory and
    does not call [Load], however old the timestamp is. *)
Theorem GetButtonMap_modified (Load : CButtonMap -> CButtonMap * bool) (now : Z)
    (controllerId : string) (features : FeatureVector) (self : CButtonMap) :
  let mapped := MapFeatures controllerId features self in
  let reverted := (RevertButtonMap mapped).1 in
  GetButtonMap Load now mapped = (mapped, m_buttonMap mapped)
  /\ GetButtonMap Load now reverted = (reverted, m_buttonMap reverted).
Proof.
  intros mapped reverted. split; [reflexivity |].
  unfold GetButtonMap.
  assert (Hmodified : m_bModified reverted = true).
  { unfold reverted, RevertButtonMap. now destruct (negb _). }
  now rewrite Hmodified.
Qed.

(** X12: a successful save counts as a fresh load.  When SaveButtonMap
    has succeeded at a time [now] whose expiry time is within [int64_t],
    GetButtonMap returns the saved button map without calling [Load] at
    any time less than 2000 ms later; and there is nothing left to
    revert. *)
Theorem SaveButtonMap_fresh (Load : CButtonMap -> CButtonMap * bool) (now now' : Z)
    (self : CButtonMap) :
  int64_range now ->
  int64_range (now + 2000) ->
  (now' < now + 2000)%Z ->
  let saved := (SaveButtonMap true now self).1 in
  GetButtonMap Load now' saved = (saved, m_buttonMap self)
  /\ RevertButtonMap saved = (saved, false).
Proof.
  intros _ Hrange Hfresh saved. split; [| reflexivity].
  unfold GetButtonMap. simpl. rewrite Refresh_fresh; [reflexivity |].
  simpl. rewrite int64_wrap_id by exact Hrange. exact Hfresh.
Qed.

Lemma SaveButtonMap_fresh_witness :
  let Load := fun self : CButtonMap => (new_CButtonMap, true) in
  let self := MapFeatures "c" [scalar "a" 0] new_CButtonMap in
  let saved := (SaveButtonMap true 100 self).1 in
  GetButtonMap Load 2099 saved = (saved, m_buttonMap self)
  /\ RevertButtonMap saved = (saved, false).
Proof.
  apply (SaveButtonMap_fresh (fun self : CButtonMap => (new_CButtonMap, true)) 100 2099
           (MapFeatures "c" [scalar "a" 0] new_CButtonMap)).
  - unfold int64_range. lia.
  - unfold int64_range. lia.
  - lia.
Defined.

(** ** The invariant of the button map store *)

Lemma all_sanitized_empty : all_sanitized ∅.
Proof. intros controllerId features Hlookup. now rewrite lookup_empty in Hlookup. Qed.

Lemma sanitized_nil : sanitized [].
Proof. split; constructor. Qed.

Lemma all_sanitized_insert (controllerId : string) (features : FeatureVector)
    (buttonMap : ButtonMap) :
  sanitized features -> all_sanitized buttonMap ->
  all_sanitized (<[controllerId := features]> buttonMap).
Proof.
  intros Hfeatures Hmap other features' Hlookup.
  destruct (decide (controllerId = other)) as [<- | Hne].
  - rewrite lookup_insert_eq in Hlookup. now injection Hlookup as <-.
  - rewrite lookup_insert_ne in Hlookup by exact Hne. now apply (Hmap other).
Qed.

Lemma Refresh_all_sanitized (Load : CButtonMap -> CButtonMap * bool) (now : Z)
    (self : CButtonMap) :
  (int64_wrap (m_timestamp self + RESOURCE_LIFETIME_MS) <= now)%Z ->
  (Load self).2 = true ->
  all_sanitized (m_buttonMap (Refresh Load now self).1)
  /\ m_originalButtonMap (Refresh Load now self).1 = ∅.
Proof.
  intros Hexpired Hloaded. rewrite Refresh_expired by exact Hexpired.
  rewrite Hloaded. simpl. split; [| reflexivity].
  intros controllerId features Hlookup. rewrite map_lookup_imap in Hlookup.
  destruct (m_buttonMap (Load self).1 !! controllerId) as [loaded_features |];
    simpl in Hlookup; [| discriminate].
  injection Hlookup as <-. apply Sanitize_sanitized.
Qed.

(** X13: the invariant of the button map.  In every store that the
    operations produce from a new one, every feature-set of the button map
    and of its backup is sanitized: no valid primitive occurs twice in it,
    and each of its features has a valid primitive. *)
Theorem produced_all_sanitized (self : CButtonMap) :
  produced self ->
  all_sanitized (m_buttonMap self) /\ all_sanitized (m_originalButtonMap self).
Proof.
  induction 1 as [| controllerId features self _ [IHmap IHbackup]
                  | saved now self _ [IHmap IHbackup]
                  | self _ [IHmap IHbackup]
                  | saved now controllerId self _ [IHmap IHbackup]
                  | Load now self _ [IHmap IHbackup] Hok].
  - split; apply all_sanitized_empty.
  - split.
    + simpl. apply all_sanitized_insert; [| exact IHmap].
      eapply sanitized_Permutation; [apply sort_by_name_Permutation | apply Sanitize_sanitized].
    + rewrite MapFeatures_backup. now destruct (empty _).
  - destruct saved; simpl; [split; [exact IHmap | apply all_sanitized_empty] | now split].
  - unfold RevertButtonMap. destruct (negb _); simpl; now split.
  - unfold ResetButtonMap.
    assert (Hcleared : all_sanitized (<[controllerId := []]> (m_buttonMap self)))
      by (apply all_sanitized_insert; [apply sanitized_nil | exact IHmap]).
    case_bool_decide as Hfeatures; simpl.
    + split; [| exact IHbackup]. rewrite Hfeatures. exact Hcleared.
    + destruct saved; simpl; [split; [exact Hcleared | apply all_sanitized_empty] | now split].
  - destruct (Z_le_gt_dec (int64_wrap (m_timestamp self + RESOURCE_LIFETIME_MS)) now)
      as [Hexpired | Hfresh].
    + rewrite Refresh_expired in Hok by exact Hexpired.
      destruct ((Load self).2) eqn:Hloaded; [| discriminate].
      destruct (Refresh_all_sanitized Load now self Hexpired Hloaded) as [Hmap Hbackup].
      split; [exact Hmap |]. rewrite Hbackup. apply all_sanitized_empty.
    + rewrite Refresh_fresh by lia. now split.
Qed.

Lemma produced_all_sanitized_witness :
  let self := (RevertButtonMap
                 (MapFeatures "c" [scalar "b" 0]
                    (MapFeatures "c" [scalar "a" 0] new_CButtonMap))).1 in
  all_sanitized (m_buttonMap self) /\ all_sanitized (m_originalButtonMap self).
Proof.
  apply (produced_all_sanitized
           (RevertButtonMap
              (MapFeatures "c" [scalar "b" 0]
                 (MapFeatures "c" [scalar "a" 0] new_CButtonMap))).1).
  repeat constructor.
Defined.

(** ** More about the controller transformer *)

Section MoreTransformerFacts.

Context `{TranslationLess}.

Lemma OnAdd_known (driverInfo : DevicePtr) (buttonMap : ButtonMap)
    (self : CControllerTransformer) :
  driverInfo ∈ m_observedDevices self -> OnAdd driverInfo buttonMap self = self.
Proof.
  intros Hknown. unfold OnAdd. case_bool_decide; [reflexivity |].
  now rewrite bool_decide_eq_true_2 by exact Hknown.
Qed.

(** X14: a device is observed once.  A second [OnAdd] for a device, with
    the same or with another button map, changes nothing. *)
Theorem OnAdd_again (driverInfo : DevicePtr) (buttonMap buttonMap' : ButtonMap)
    (self : CControllerTransformer) :
  OnAdd driverInfo buttonMap' (OnAdd driverInfo buttonMap self)
  = OnAdd driverInfo buttonMap self.
Proof.
  destruct (decide (200 < size (m_observedDevices self))%nat) as [Hfull | Hroom].
  - rewrite (OnAdd_sanity_check driverInfo buttonMap self Hfull).
    now apply OnAdd_sanity_check.
  - apply OnAdd_known. rewrite OnAdd_observed.
    rewrite bool_decide_eq_false_2 by exact Hroom.
    apply elem_of_union_l, elem_of_singleton. reflexivity.
Qed.

Lemma from_entries_inv (all : list (string * FeatureVector)) (to : string)
    (itFrom : string * FeatureVector) :
  In itFrom (from_entries all to) -> In itFrom all /\ String.ltb itFrom.1 to = true.
Proof.
  induction all as [| first rest IH]; simpl; [tauto |].
  destruct (String.ltb first.1 to) eqn:Hlt; [| intros []].
  intros [<- | Hin]; [split; [now left | exact Hlt] |].
  destruct (IH Hin). split; [now right | assumption].
Qed.

Lemma calls_inv (all : list (string * FeatureVector))
    (call : (string * FeatureVector) * (string * FeatureVector)) :
  In call (calls all) ->
  In call.1 all /\ In call.2 all /\ String.ltb call.1.1 call.2.1 = true.
Proof.
  unfold calls. intros Hcall. apply in_flat_map in Hcall as (itTo & HitTo & Hcall).
  apply in_map_iff in Hcall as (itFrom & <- & HitFrom).
  apply from_entries_inv in HitFrom as [HitFrom Hlt]. simpl. now repeat split.
Qed.

Lemma entries_inv (buttonMap : ButtonMap) (entry : string * FeatureVector) :
  In entry (entries buttonMap) -> buttonMap !! entry.1 = Some entry.2.
Proof.
  intros Hentry. eapply Permutation_in in Hentry; [| symmetry; apply entries_Permutation].
  destruct entry as [controllerId features]. now apply elem_of_map_to_list, list_elem_of_In.
Qed.

(** X15: [OnAdd] touches the buckets of the pairs of profiles of the
    device only.  The bucket of [(A, B)] is as before unless the button
    map has both profiles and [A < B]. *)
Theorem OnAdd_other_pairs (driverInfo : DevicePtr) (buttonMap : ButtonMap) (A B : string)
    (self : CControllerTransformer) :
  buttonMap !! A = None \/ buttonMap !! B = None \/ String.ltb A B = false ->
  m_controllerMap (OnAdd driverInfo buttonMap self) !! (A, B)
  = m_controllerMap self !! (A, B).
Proof.
  intros Hpair.
  destruct (decide (200 < size (m_observedDevices self))%nat) as [Hfull | Hroom];
    [now rewrite OnAdd_sanity_check |].
  destruct (decide (driverInfo ∈ m_observedDevices self)) as [Hknown | Hfresh];
    [now rewrite OnAdd_known |].
  rewrite OnAdd_calls by (lia || assumption).
  rewrite fold_add_call_other; [reflexivity |].
  intros Hkey. apply list_elem_of_In, in_map_iff in Hkey as (call & Hkey & Hcall).
  apply calls_inv in Hcall as (Hfrom & Hto & Hlt).
  apply entries_inv in Hfrom, Hto. unfold call_key in Hkey. injection Hkey as HA HB.
  rewrite HA in Hfrom, Hlt. rewrite HB in Hto, Hlt.
  destruct Hpair as [Hnone | [Hnone | Hge]]; congruence.
Qed.

(** *** The keys of the table *)

Lemma map_increment_keys (features : FeatureMap) (featureMaps : FeatureMaps) :
  Forall (fun featureMap => featureMap.1 <> []) featureMaps ->
  Forall (fun featureMap => featureMap.1 <> []) (map_increment features featureMaps).
Proof.
  induction 1 as [| [key count] rest Hkey Hrest IH]; simpl; [constructor |].
  destruct (FeatureMap_lt key features); [now constructor |].
  destruct (FeatureMap_lt features key); now constructor.
Qed.

Lemma map_insert_keys (features : FeatureMap) (count : N) (featureMaps : FeatureMaps) :
  features <> [] ->
  Forall (fun featureMap => featureMap.1 <> []) featureMaps ->
  Forall (fun featureMap => featureMap.1 <> []) (map_insert features count featureMaps).
Proof.
  intros Hfeatures. induction 1 as [| [key count'] rest Hkey Hrest IH]; simpl.
  - now repeat constructor.
  - destruct (FeatureMap_lt features key); [now repeat constructor |].
    destruct (FeatureMap_lt key features); now constructor.
Qed.

Lemma count_features_keys (features : FeatureMap) (featureMaps : FeatureMaps) :
  features <> [] ->
  Forall (fun featureMap => featureMap.1 <> []) featureMaps ->
  Forall (fun featureMap => featureMap.1 <> []) (count_features features featureMaps).
Proof.
  intros Hfeatures Hkeys. unfold count_features. destruct (map_find _ _).
  - now apply map_increment_keys.
  - now apply map_insert_keys.
Qed.

Lemma add_call_keys_canonical (self : CControllerTransformer)
    (call : (string * FeatureVector) * (string * FeatureVector)) :
  String.ltb call.1.1 call.2.1 = true ->
  keys_canonical self -> keys_canonical (add_call self call).
Proof.
  intros Hlt Hself A B featureMaps Hlookup.
  destruct (decide ((A, B) = call_key call)) as [Hkey | Hkey].
  - rewrite Hkey, add_call_same in Hlookup.
    unfold call_key in Hkey. injection Hkey as -> ->.
    destruct (translations call.1.2 call.2.2) as [| entry features] eqn:Htranslations.
    + now apply Hself.
    + injection Hlookup as <-. split; [now apply ltb_asym |]. split; [now intros _ |].
      apply count_features_keys; [discriminate |].
      destruct (m_controllerMap self !! call_key call) as [before |] eqn:Hbefore; simpl.
      * now apply (Hself call.1.1 call.2.1 before).
      * constructor.
  - rewrite add_call_other in Hlookup by exact Hkey. now apply Hself.
Qed.

Lemma OnAdd_keys_canonical (driverInfo : DevicePtr) (buttonMap : ButtonMap)
    (self : CControllerTransformer) :
  keys_canonical self -> keys_canonical (OnAdd driverInfo buttonMap self).
Proof.
  intros Hself.
  destruct (decide (200 < size (m_observedDevices self))%nat) as [Hfull | Hroom];
    [now rewrite OnAdd_sanity_check |].
  destruct (decide (driverInfo ∈ m_observedDevices self)) as [Hknown | Hfresh];
    [now rewrite OnAdd_known |].
  rewrite OnAdd_calls by (lia || assumption).
  assert (Hcalls : forall call, In call (calls (entries buttonMap)) ->
                     String.ltb call.1.1 call.2.1 = true)
    by (intros call Hcall; now apply calls_inv in Hcall).
  assert (Hstart : keys_canonical
                     {| m_controllerMap := m_controllerMap self;
                        m_observedDevices := {[driverInfo]} ∪ m_observedDevices self |})
    by exact Hself.
  revert Hcalls Hstart. generalize (calls (entries buttonMap)).
  generalize {| m_controllerMap := m_controllerMap self;
                m_observedDevices := {[driverInfo]} ∪ m_observedDevices self |}.
  intros start todo. revert start.
  induction todo as [| call todo IH]; intros start Hcalls Hstart; simpl; [exact Hstart |].
  apply IH; [intros c Hc; apply Hcalls; now right |].
  apply add_call_keys_canonical; [apply Hcalls; now left | exact Hstart].
Qed.

Lemma TransformFeatures_keys_canonical (fromController toController : string)
    (features transformedFeatures : FeatureVector) (self : CControllerTransformer) :
  keys_canonical self ->
  keys_canonical (TransformFeatures fromController toController features
                                    transformedFeatures self).1.
Proof.
  intros Hself A B featureMaps Hlookup.
  assert (Htable : m_controllerMap (TransformFeatures fromController toController features
                                      transformedFeatures self).1
                   = <[needle fromController toController :=
                         default [] (m_controllerMap self
                                       !! needle fromController toController)]>
                       (m_controllerMap self))
    by (unfold TransformFeatures; now destruct (best_feature_map _)).
  rewrite Htable in Hlookup.
  destruct (decide (needle fromController toController = (A, B))) as [Hkey | Hkey].
  - rewrite Hkey, lookup_insert_eq in Hlookup. injection Hlookup as <-.
    destruct (m_controllerMap self !! (A, B)) as [before |] eqn:Hbefore; simpl.
    + now apply Hself.
    + split; [| split; [now intros [] | constructor]].
      unfold needle, bSwap in Hkey.
      destruct (String.ltb fromController toController) eqn:Hlt; simpl in Hkey;
        injection Hkey as <- <-; [now apply ltb_asym | exact Hlt].
  - rewrite lookup_insert_ne in Hlookup by exact Hkey. now apply Hself.
Qed.

Lemma reachable_keys_canonical (self : CControllerTransformer) :
  reachable self -> keys_canonical self.
Proof.
  induction 1 as [| driverInfo buttonMap self _ IH
                  | fromController toController features transformedFeatures self _ IH].
  - intros A B featureMaps Hlookup. simpl in Hlookup. now rewrite lookup_empty in Hlookup.
  - now apply OnAdd_keys_canonical.
  - now apply TransformFeatures_keys_canonical.
Qed.

(** X16: the invariant of the translation table.  In every reachable
    transformer at most 201 devices are observed; the key of every bucket
    has its two controller ids in ascending order, and different ones if
    the bucket has a translation set; no stored translation set is empty;
    and every count is at least 1 and at most the number of observed
    devices. *)
Theorem reachable_table_invariant (self : CControllerTransformer) (A B : string)
    (featureMaps : FeatureMaps) :
  reachable self ->
  m_controllerMap self !! (A, B) = Some featureMaps ->
  (size (m_observedDevices self) <= 201)%nat
  /\ String.ltb B A = false
  /\ (featureMaps <> [] -> String.ltb A B = true)
  /\ Forall (fun featureMap =>
               featureMap.1 <> []
               /\ (1 <= featureMap.2 <= N.of_nat (size (m_observedDevices self)))%N)
            featureMaps.
Proof.
  intros Hreachable Hlookup.
  destruct (reachable_counts_bounded self Hreachable) as [Hsize Hcounts].
  destruct (reachable_keys_canonical self Hreachable A B featureMaps Hlookup)
    as (Hge & Hlt & Hkeys).
  specialize (Hcounts _ _ Hlookup).
  split; [exact Hsize |]. split; [exact Hge |]. split; [exact Hlt |].
  unfold counts_within in Hcounts. rewrite Forall_forall in Hcounts, Hkeys |- *.
  intros featureMap HfeatureMap. split; [now apply Hkeys | now apply Hcounts].
Qed.

(** X17: transforming to the same controller gives nothing.  In a
    reachable transformer [TransformFeatures] with [fromController] equal
    to [toController] appends no feature: the bucket of such a pair never
    has a translation set. *)
Theorem TransformFeatures_same_controller (controllerId : string)
    (features transformedFeatures : FeatureVector) (self : CControllerTransformer) :
  reachable self ->
  (TransformFeatures controllerId controllerId features transformedFeatures self).2
  = transformedFeatures.
Proof.
  intros Hreachable. unfold TransformFeatures.
  assert (Hneedle : needle controllerId controllerId = (controllerId, controllerId))
    by (unfold needle; now destruct (bSwap _ _)).
  rewrite Hneedle.
  destruct (m_controllerMap self !! (controllerId, controllerId)) as [featureMaps |] eqn:Hlookup;
    simpl; [| reflexivity].
  destruct (reachable_keys_canonical self Hreachable _ _ _ Hlookup) as (Hge & Hlt & _).
  destruct featureMaps as [| featureMap rest]; [reflexivity |].
  rewrite Hlt in Hge by discriminate. discriminate.
Qed.

End MoreTransformerFacts.

Lemma OnAdd_other_pairs_witness :
  m_controllerMap (OnAdd (H := by_from_then_to) 1 sample_buttonMap new_CControllerTransformer)
    !! ("B", "A")
  = m_controllerMap new_CControllerTransformer !! ("B", "A").
Proof.
  apply (OnAdd_other_pairs (H := by_from_then_to) 1 sample_buttonMap "B" "A"
           new_CControllerTransformer).
  right. right. reflexivity.
Defined.

Lemma reachable_table_invariant_witness :
  let self := observe_all (H := by_from_then_to) mixed_observations
                          new_CControllerTransformer in
  let featureMaps :=
    [([{| fromFeature := "f1"; toFeature := "g1" |}], 3%N);
     ([{| fromFeature := "f2"; toFeature := "g2" |}], 5%N)] in
  (size (m_observedDevices self) <= 201)%nat
  /\ String.ltb "B" "A" = false
  /\ (featureMaps <> [] -> String.ltb "A" "B" = true)
  /\ Forall (fun featureMap =>
               featureMap.1 <> []
               /\ (1 <= featureMap.2 <= N.of_nat (size (m_observedDevices self)))%N)
            featureMaps.
Proof.
  apply (reachable_table_invariant (H := by_from_then_to)
           (observe_all (H := by_from_then_to) mixed_observations new_CControllerTransformer)
           "A" "B").
  - apply reachable_observe_all. constructor.
  - vm_compute. reflexivity.
Defined.

Lemma TransformFeatures_same_controller_witness :
  (TransformFeatures "A" "A" [scalar "f1" 8] []
     (observe_all (H := by_from_then_to) mixed_observations new_CControllerTransformer)).2
  = [].
Proof.
  apply (TransformFeatures_same_controller (H := by_from_then_to)).
  apply reachable_observe_all. constructor.
Defined.

(** ** What TransformFeatures appends *)

(** X18: the features that [TransformFeatures] appends are features of
    the input under another name: each one has the type and the
    primitives of an input feature.  With no input feature nothing is
    appended. *)
Theorem TransformFeatures_clones (fromController toController : string)
    (features transformedFeatures : FeatureVector) (self : CControllerTransformer) :
  exists appended,
    (TransformFeatures fromController toController features transformedFeatures self).2
    = transformedFeatures ++ appended
    /\ (forall g, In g appended ->
          exists f name, In f features /\ g = JoystickFeature.SetName f name)
    /\ (features = [] -> appended = []).
Proof.
  unfold TransformFeatures.
  destruct (best_feature_map _) as [bestFeatureMap |]; simpl.
  - eexists. split; [reflexivity |]. split.
    + intros g Hg. apply in_flat_map in Hg as (featurePair & _ & Hg).
      unfold transform_pair in Hg.
      destruct (List.find _ features) as [itFrom |] eqn:Hfind; [| destruct Hg].
      destruct Hg as [<- | []]. apply find_some in Hfind as [Hin _].
      now exists itFrom, (if bSwap fromController toController
                          then fromFeature featurePair else toFeature featurePair).
    + intros ->. induction bestFeatureMap as [| featurePair rest IH]; [reflexivity |].
      simpl. exact IH.
  - exists []. split; [now rewrite app_nil_r |]. split; [intros g [] | reflexivity].
Qed.

(** ** What AddControllerMap learns *)

Section LearningFacts.

Context `{TranslationLess}.

Lemma set_insert_not_nil (featureEntry : FeatureTranslation) (features : FeatureMap) :
  set_insert featureEntry features <> [].
Proof.
  destruct features as [| entry rest]; simpl; [discriminate |].
  destruct (translation_lt featureEntry entry); [discriminate |].
  destruct (translation_lt entry featureEntry); discriminate.
Qed.

Lemma set_insert_inv (featureEntry entry : FeatureTranslation) (features : FeatureMap) :
  In entry (set_insert featureEntry features) -> entry = featureEntry \/ In entry features.
Proof.
  induction features as [| e rest IH]; simpl.
  - intros [<- | []]. now left.
  - destruct (translation_lt featureEntry e).
    + intros [<- | Hin]; [now left | now right].
    + destruct (translation_lt e featureEntry); [| now right].
      intros [<- | Hin]; [right; now left |].
      destruct (IH Hin) as [-> | Hrest]; [now left | right; now right].
Qed.

Lemma primitives_match_inv (fromFeature feature : JoystickFeature.t) :
  primitives_match fromFeature feature = true ->
  JoystickFeature.Type_ fromFeature = JoystickFeature.Type_ feature
  /\ JoystickFeature.Type_ feature <> JOYSTICK_FEATURE_TYPE_UNKNOWN
  /\ JoystickFeature.Primitive fromFeature 0 = JoystickFeature.Primitive feature 0.
Proof.
  unfold primitives_match. case_bool_decide as Htype; [| discriminate].
  intros Hmatch. split; [exact Htype |].
  destruct (JoystickFeature.Type_ feature); try discriminate.
  all: split; [discriminate |].
  all: repeat (apply andb_true_iff in Hmatch as [Hmatch _]).
  all: now apply eqb_true in Hmatch.
Qed.

(** X19: the translations that [AddControllerMap] learns are sound.
    Every translation in the set that it builds names a feature of
    [featuresFrom] and the first feature of [featuresTo] that matches it;
    the two features have the same type, which is not the unknown one, and
    the same primitive in their first slot. *)
Theorem translations_sound (featuresFrom featuresTo : FeatureVector)
    (entry : FeatureTranslation) :
  In entry (translations featuresFrom featuresTo) ->
  exists f g,
    In f featuresFrom
    /\ List.find (primitives_match f) featuresTo = Some g
    /\ In g featuresTo
    /\ entry = {| fromFeature := JoystickFeature.Name f;
                  toFeature := JoystickFeature.Name g |}
    /\ JoystickFeature.Type_ f = JoystickFeature.Type_ g
    /\ JoystickFeature.Type_ g <> JOYSTICK_FEATURE_TYPE_UNKNOWN
    /\ JoystickFeature.Primitive f 0 = JoystickFeature.Primitive g 0.
Proof.
  unfold translations.
  enough (Hgen : forall features,
            In entry (fold_left
                        (fun features fromFeature =>
                           match List.find (primitives_match fromFeature) featuresTo with
                           | Some itToFeature =>
                               set_insert
                                 {| fromFeature := JoystickFeature.Name fromFeature;
                                    toFeature := JoystickFeature.Name itToFeature |} features
                           | None => features
                           end) featuresFrom features) ->
            In entry features
            \/ exists f g,
                 In f featuresFrom
                 /\ List.find (primitives_match f) featuresTo = Some g
                 /\ entry = {| fromFeature := JoystickFeature.Name f;
                               toFeature := JoystickFeature.Name g |}).
  { intros Hentry. destruct (Hgen [] Hentry) as [[] | (f & g & Hf & Hfind & Heq)].
    exists f, g. pose proof (find_some _ _ Hfind) as [Hg Hmatch].
    apply primitives_match_inv in Hmatch as (Htype & Hknown & Hslot).
    now repeat split. }
  induction featuresFrom as [| h rest IH]; intros features Hentry; simpl in Hentry.
  - now left.
  - apply IH in Hentry as [Hentry | (f & g & Hf & Hfind & Heq)].
    + destruct (List.find (primitives_match h) featuresTo) as [g |] eqn:Hfind;
        [| now left].
      apply set_insert_inv in Hentry as [-> | Hentry]; [| now left].
      right. exists h, g. repeat split; [now left | exact Hfind].
    + right. exists f, g. repeat split; [now right | exact Hfind | exact Heq].
Qed.

Lemma translations_nil (featuresFrom featuresTo : FeatureVector) :
  translations featuresFrom featuresTo = []
  <-> forall f, In f featuresFrom -> List.find (primitives_match f) featuresTo = None.
Proof.
  unfold translations.
  enough (Hgen : forall features,
            fold_left
              (fun features fromFeature =>
                 match List.find (primitives_match fromFeature) featuresTo with
                 | Some itToFeature =>
                     set_insert
                       {| fromFeature := JoystickFeature.Name fromFeature;
                          toFeature := JoystickFeature.Name itToFeature |} features
                 | None => features
                 end) featuresFrom features = []
            <-> features = []
                /\ forall f, In f featuresFrom ->
                     List.find (primitives_match f) featuresTo = None).
  { rewrite Hgen. tauto. }
  induction featuresFrom as [| h rest IH]; intros features; simpl.
  - split; [intros ->; split; [reflexivity | intros f []] | tauto].
  - rewrite IH. destruct (List.find (primitives_match h) featuresTo) as [g |] eqn:Hfind.
    + split.
      * intros [Hnil _]. now apply set_insert_not_nil in Hnil.
      * intros [_ Hnone]. specialize (Hnone h (or_introl eq_refl)). congruence.
    + split.
      * intros [-> Hnone]. split; [reflexivity |]. intros f [<- | Hf]; [exact Hfind | now apply Hnone].
      * intros [-> Hnone]. split; [reflexivity |]. intros f Hf. apply Hnone. now right.
Qed.

(** *** The number of observations *)

Lemma total_count_increment (features : FeatureMap) (n : N) (featureMaps : FeatureMaps) :
  (n + 1 < 2 ^ 32)%N -> counts_within n featureMaps ->
  map_find features featureMaps <> None ->
  total_count (map_increment features featureMaps) = (total_count featureMaps + 1)%N.
Proof.
  intros Hsmall. induction 1 as [| [key count] rest Hcount Hrest IH]; simpl; [congruence |].
  simpl in Hcount.
  destruct (FeatureMap_lt key features).
  - intros Hfound. simpl. rewrite IH by exact Hfound. lia.
  - destruct (FeatureMap_lt features key); [congruence |].
    intros _. simpl. rewrite increment_small by lia. lia.
Qed.

Lemma total_count_insert (features : FeatureMap) (featureMaps : FeatureMaps) :
  map_find features featureMaps = None ->
  total_count (map_insert features 1 featureMaps) = (total_count featureMaps + 1)%N.
Proof.
  induction featureMaps as [| [key count] rest IH]; simpl; [lia |].
  destruct (FeatureMap_lt features key) eqn:Hless.
  - intros _. simpl. lia.
  - destruct (FeatureMap_lt key features); [| discriminate].
    intros Hfind. simpl. rewrite IH by exact Hfind. lia.
Qed.

Lemma total_count_count_features (features : FeatureMap) (n : N) (featureMaps : FeatureMaps) :
  (n + 1 < 2 ^ 32)%N -> counts_within n featureMaps ->
  total_count (count_features features featureMaps) = (total_count featureMaps + 1)%N.
Proof.
  intros Hsmall Hcounts. unfold count_features.
  destruct (map_find features featureMaps) eqn:Hfind.
  - apply total_count_increment with n; [assumption .. | congruence].
  - now apply total_count_insert.
Qed.

(** X20: [AddControllerMap] returns true exactly when some feature of
    [featuresFrom] is matched by a feature of [featuresTo].  When it
    returns false the transformer is unchanged.  When it returns true on a
    reachable transformer, the bucket of the pair holds one observation
    more, and no other bucket changes. *)
Theorem AddControllerMap_result (controllerFrom : string) (featuresFrom : FeatureVector)
    (controllerTo : string) (featuresTo : FeatureVector) (self : CControllerTransformer) :
  reachable self ->
  let result :=
    AddControllerMap controllerFrom featuresFrom controllerTo featuresTo self in
  let bucket (self : CControllerTransformer) :=
    default [] (m_controllerMap self !! (controllerFrom, controllerTo)) in
  (result.2 = true
   <-> exists f g, In f featuresFrom /\ List.find (primitives_match f) featuresTo = Some g)
  /\ (result.2 = false -> result.1 = self)
  /\ (result.2 = true ->
      total_count (bucket result.1) = (total_count (bucket self) + 1)%N
      /\ forall key, key <> (controllerFrom, controllerTo) ->
           m_controllerMap result.1 !! key = m_controllerMap self !! key).
Proof.
  intros Hreachable result bucket.
  pose proof (translations_nil featuresFrom featuresTo) as Hnil.
  pose proof (AddControllerMap_same controllerFrom featuresFrom controllerTo featuresTo self)
    as Hsame.
  pose proof (AddControllerMap_other controllerFrom featuresFrom controllerTo featuresTo self)
    as Hother.
  unfold result, bucket. clear result bucket. unfold AddControllerMap in *.
  destruct (translations featuresFrom featuresTo) as [| entry features]; simpl in *.
  - split; [| split; [reflexivity | discriminate]].
    split; [discriminate |]. intros (f & g & Hf & Hfind).
    rewrite (proj1 Hnil eq_refl f Hf) in Hfind. discriminate.
  - split; [| split; [discriminate |]].
    + split; [intros _ | reflexivity].
      destruct (List.existsb
                  (fun f => match List.find (primitives_match f) featuresTo with
                            | Some _ => true | None => false end) featuresFrom) eqn:Hexists.
      * apply existsb_exists in Hexists as (f & Hf & Hfound).
        destruct (List.find (primitives_match f) featuresTo) as [g |] eqn:Hfind;
          [now exists f, g | discriminate].
      * exfalso. assert (Hnone : entry :: features = []); [| discriminate].
        apply Hnil. intros f Hf.
        destruct (List.find (primitives_match f) featuresTo) eqn:Hfind; [| reflexivity].
        assert (Htrue : List.existsb
                  (fun f => match List.find (primitives_match f) featuresTo with
                            | Some _ => true | None => false end) featuresFrom = true)
          by (apply existsb_exists; exists f; now rewrite Hfind).
        congruence.
    + intros _. split; [| exact Hother].
      rewrite lookup_insert_eq. simpl.
      destruct (reachable_counts_bounded self Hreachable) as [Hsize Hcounts].
      apply total_count_count_features with (N.of_nat (size (m_observedDevices self))); [lia |].
      destruct (m_controllerMap self !! (controllerFrom, controllerTo)) as [before |] eqn:Hbefore;
        simpl; [now apply (Hcounts (controllerFrom, controllerTo)) | constructor].
Qed.

(** X21: a device is counted once for each pair of its profiles.  When a
    reachable transformer observes a new device, below the ceiling, whose
    button map has the profiles [A < B], the bucket of [(A, B)] holds one
    observation more if a feature of [A] is matched by a feature of [B],
    and is as before otherwise. *)
Theorem OnAdd_counts_once (driverInfo : DevicePtr) (buttonMap : ButtonMap) (A B : string)
    (featuresA featuresB : FeatureVector) (self : CControllerTransformer) :
  reachable self ->
  (size (m_observedDevices self) <= 200)%nat ->
  driverInfo ∉ m_observedDevices self ->
  buttonMap !! A = Some featuresA -> buttonMap !! B = Some featuresB ->
  String.ltb A B = true ->
  let bucket (self : CControllerTransformer) := default [] (m_controllerMap self !! (A, B)) in
  ((exists f g, In f featuresA /\ List.find (primitives_match f) featuresB = Some g) ->
   total_count (bucket (OnAdd driverInfo buttonMap self)) = (total_count (bucket self) + 1)%N)
  /\ ((forall f, In f featuresA -> List.find (primitives_match f) featuresB = None) ->
      m_controllerMap (OnAdd driverInfo buttonMap self) !! (A, B)
      = m_controllerMap self !! (A, B)).
Proof.
  intros Hreachable Hsize Hfresh HA HB Hlt bucket. unfold bucket.
  rewrite (OnAdd_bucket driverInfo buttonMap A B featuresA featuresB) by assumption.
  pose proof (translations_nil featuresA featuresB) as Hnil.
  destruct (translations featuresA featuresB) as [| entry features]; split.
  - intros (f & g & Hf & Hfind). rewrite (proj1 Hnil eq_refl f Hf) in Hfind. discriminate.
  - reflexivity.
  - intros _. simpl.
    destruct (reachable_counts_bounded self Hreachable) as [_ Hcounts].
    apply total_count_count_features with (N.of_nat (size (m_observedDevices self))); [lia |].
    destruct (m_controllerMap self !! (A, B)) as [before |] eqn:Hbefore; simpl;
      [now apply (Hcounts (A, B)) | constructor].
  - intros Hnone. apply Hnil in Hnone. discriminate.
Qed.

End LearningFacts.

Lemma translations_sound_witness :
  exists f g,
    In f [scalar "f1" 0; scalar "f2" 1]
    /\ List.find (primitives_match f) [scalar "g1" 0] = Some g
    /\ In g [scalar "g1" 0]
    /\ {| fromFeature := "f1"; toFeature := "g1" |}
       = {| fromFeature := JoystickFeature.Name f; toFeature := JoystickFeature.Name g |}
    /\ JoystickFeature.Type_ f = JoystickFeature.Type_ g
    /\ JoystickFeature.Type_ g <> JOYSTICK_FEATURE_TYPE_UNKNOWN
    /\ JoystickFeature.Primitive f 0 = JoystickFeature.Primitive g 0.
Proof.
  apply (translations_sound (H := by_from_then_to) [scalar "f1" 0; scalar "f2" 1]
           [scalar "g1" 0]).
  now left.
Defined.

Lemma AddControllerMap_result_witness :
  let self := observe_all (H := by_from_then_to) mixed_observations
                          new_CControllerTransformer in
  let result :=
    AddControllerMap (H := by_from_then_to) "A" [scalar "f1" 0] "B" [scalar "g1" 0] self in
  let bucket (self : CControllerTransformer) :=
    default [] (m_controllerMap self !! ("A", "B")) in
  (result.2 = true
   <-> exists f g, In f [scalar "f1" 0]
                   /\ List.find (primitives_match f) [scalar "g1" 0] = Some g)
  /\ (result.2 = false -> result.1 = self)
  /\ (result.2 = true ->
      total_count (bucket result.1) = (total_count (bucket self) + 1)%N
      /\ forall key, key <> ("A", "B") ->
           m_controllerMap result.1 !! key = m_controllerMap self !! key).
Proof.
  apply (AddControllerMap_result (H := by_from_then_to) "A" [scalar "f1" 0] "B"
           [scalar "g1" 0]).
  apply reachable_observe_all. constructor.
Defined.

Lemma OnAdd_counts_once_witness :
  let self := observe_all (H := by_from_then_to) mixed_observations
                          new_CControllerTransformer in
  let bucket (self : CControllerTransformer) :=
    default [] (m_controllerMap self !! ("A", "B")) in
  ((exists f g, In f [scalar "f1" 0; scalar "f2" 1]
                /\ List.find (primitives_match f) [scalar "g1" 0] = Some g) ->
   total_count (bucket (OnAdd (H := by_from_then_to) 9 sample_buttonMap self))
   = (total_count (bucket self) + 1)%N)
  /\ ((forall f, In f [scalar "f1" 0; scalar "f2" 1] ->
         List.find (primitives_match f) [scalar "g1" 0] = None) ->
      m_controllerMap (OnAdd (H := by_from_then_to) 9 sample_buttonMap self) !! ("A", "B")
      = m_controllerMap self !! ("A", "B")).
Proof.
  apply (OnAdd_counts_once (H := by_from_then_to) 9 sample_buttonMap "A" "B"
           [scalar "f1" 0; scalar "f2" 1] [scalar "g1" 0]).
  - apply reachable_observe_all. constructor.
  - vm_compute. lia.
  - apply (bool_decide_unpack _). vm_compute. exact I.
  - reflexivity.
  - reflexivity.
  - reflexivity.
Defined.

(** ** What OnAdd keeps *)

Section KeepingFacts.

Context `{TranslationLess}.

Lemma map_increment_keeps (features : FeatureMap) (featureMaps : FeatureMaps)
    (kept : FeatureMap) (count : N) :
  In (kept, count) featureMaps ->
  In (kept, count) (map_increment features featureMaps)
  \/ In (kept, increment count) (map_increment features featureMaps).
Proof.
  induction featureMaps as [| [key count'] rest IH]; simpl; [tauto |].
  intros [Heq | Hin].
  - injection Heq as -> ->.
    destruct (FeatureMap_lt kept features); [left; now left |].
    destruct (FeatureMap_lt features kept); [left; now left | right; now left].
  - destruct (FeatureMap_lt key features).
    + destruct (IH Hin) as [Hsame | Hmore]; [left | right]; now right.
    + destruct (FeatureMap_lt features key); left; now right.
Qed.

Lemma map_insert_keeps (features : FeatureMap) (n : N) (featureMaps : FeatureMaps)
    (featureMap : FeatureMap * N) :
  In featureMap featureMaps -> In featureMap (map_insert features n featureMaps).
Proof.
  induction featureMaps as [| [key count'] rest IH]; simpl; [tauto |].
  intros Hin. destruct (FeatureMap_lt features key); [now right |].
  destruct (FeatureMap_lt key features); [| exact Hin].
  destruct Hin as [<- | Hin]; [now left | right; now apply IH].
Qed.

Lemma count_features_keeps (features : FeatureMap) (featureMaps : FeatureMaps)
    (kept : FeatureMap) (count : N) :
  In (kept, count) featureMaps ->
  In (kept, count) (count_features features featureMaps)
  \/ In (kept, increment count) (count_features features featureMaps).
Proof.
  intros Hin. unfold count_features. destruct (map_find _ _).
  - now apply map_increment_keeps.
  - left. now apply map_insert_keeps.
Qed.

(** X22: [OnAdd] never forgets.  The devices observed before are still
    observed after it, and in a reachable transformer every translation
    set of every bucket is still in its bucket, with its count or its
    count plus one. *)
Theorem OnAdd_keeps (driverInfo : DevicePtr) (buttonMap : ButtonMap)
    (self : CControllerTransformer) (key : ControllerTranslation)
    (featureMaps : FeatureMaps) (features : FeatureMap) (count : N) :
  reachable self ->
  m_controllerMap self !! key = Some featureMaps ->
  In (features, count) featureMaps ->
  m_observedDevices self ⊆ m_observedDevices (OnAdd driverInfo buttonMap self)
  /\ exists featureMaps' count',
       m_controllerMap (OnAdd driverInfo buttonMap self) !! key = Some featureMaps'
       /\ In (features, count') featureMaps'
       /\ (count' = count \/ count' = (count + 1)%N).
Proof.
  intros Hreachable Hlookup Hin. split.
  { rewrite OnAdd_observed. case_bool_decide; [reflexivity | apply union_subseteq_r]. }
  assert (Hsame : exists featureMaps' count',
            m_controllerMap self !! key = Some featureMaps'
            /\ In (features, count') featureMaps'
            /\ (count' = count \/ count' = (count + 1)%N)).
  { exists featureMaps, count. split; [exact Hlookup |]. split; [exact Hin | now left]. }
  destruct (decide (200 < size (m_observedDevices self))%nat) as [Hfull | Hroom];
    [now rewrite OnAdd_sanity_check |].
  destruct (decide (driverInfo ∈ m_observedDevices self)) as [Hknown | Hfresh];
    [now rewrite OnAdd_known |].
  rewrite OnAdd_calls by (lia || assumption).
  destruct (decide (key ∈ List.map call_key (calls (entries buttonMap)))) as [Hkey | Hkey].
  - apply list_elem_of_In, in_map_iff in Hkey as (call & <- & Hcall).
    rewrite (fold_add_call_same call) by (apply calls_NoDup || exact Hcall).
    rewrite add_call_same. simpl.
    destruct (translations call.1.2 call.2.2) as [| entry rest]; [exact Hsame |].
    rewrite Hlookup. simpl. eexists. 
    destruct (reachable_counts_bounded self Hreachable) as [Hsize Hcounts].
    specialize (Hcounts _ _ Hlookup). unfold counts_within in Hcounts.
    rewrite Forall_forall in Hcounts.
    pose proof (Hcounts (features, count) (proj2 (list_elem_of_In _ _) Hin)) as Hcount.
    simpl in Hcount.
    destruct (count_features_keeps (entry :: rest) featureMaps features count Hin)
      as [Hkept | Hkept].
    + exists count. split; [reflexivity |]. split; [exact Hkept | now left].
    + exists (count + 1)%N. split; [reflexivity |].
      rewrite increment_small in Hkept by lia. split; [exact Hkept | now right].
  - rewrite fold_add_call_other by exact Hkey. exact Hsame.
Qed.

End KeepingFacts.

Lemma OnAdd_keeps_witness :
  let self := observe_all (H := by_from_then_to) mixed_observations
                          new_CControllerTransformer in
  let featureMaps :=
    [([{| fromFeature := "f1"; toFeature := "g1" |}], 3%N);
     ([{| fromFeature := "f2"; toFeature := "g2" |}], 5%N)] in
  m_observedDevices self
    ⊆ m_observedDevices (OnAdd (H := by_from_then_to) 9 sample_buttonMap self)
  /\ exists featureMaps' count',
       m_controllerMap (OnAdd (H := by_from_then_to) 9 sample_buttonMap self) !! ("A", "B")
       = Some featureMaps'
       /\ In ([{| fromFeature := "f2"; toFeature := "g2" |}], count') featureMaps'
       /\ (count' = 5%N \/ count' = (5 + 1)%N).
Proof.
  apply (OnAdd_keeps (H := by_from_then_to) 9 sample_buttonMap
           (observe_all (H := by_from_then_to) mixed_observations new_CControllerTransformer)
           ("A", "B")
           [([{| fromFeature := "f1"; toFeature := "g1" |}], 3%N);
            ([{| fromFeature := "f2"; toFeature := "g2" |}], 5%N)]).
  - apply reachable_observe_all. constructor.
  - vm_compute. reflexivity.
  - right. now left.
Defined.
